(** * mysql-typed: the filter compiler, the insert builders and the
      cardinality helper of [src/database-utils.ts]

    A shallow embedding of the pure helpers of [database-utils.ts]:
    [getFilters], [createBulkInsert], [createInsert], [transformValues],
    [exactlyOneResult], [operatorToMysql], [manageFilters] and
    [createFilters].  JavaScript strings are [string], arrays are [list],
    objects used as records are association lists in property-enumeration
    order, [undefined]-able fields are [option], and a [throw] is the
    [Throw] case of [Outcome].  The numbers that count (a value offset, a
    placeholder number) are integers, which the code's binary64 floats
    hold exactly up to 2^53; a limit and an offset are binary64 floats.
    The field lists and the fetch helpers of [src/typed-mysql-pool.ts]
    follow, with the driver as a parameter. *)

From Stdlib Require Import Floats.
From Stdlib Require Import ZArith List String Ascii Bool Lia.
From Stdlib Require Import Numbers.DecimalString Numbers.DecimalZ.
Import ListNotations.

Set Warnings "-register-all".

Local Open Scope string_scope.
Local Open Scope list_scope.
Local Open Scope Z_scope.

(** String concatenation, as a template literal or [+] on strings does it. *)
Infix "^^" := String.append (right associativity, at level 60).

(** ** The JavaScript fragment the helpers run on *)

Module Js.

(** The values a row or a filter leaf can hold.  [VDateConstructor] is
    the global function [Date] itself (the thing [value === Date]
    compares with), [VDate] a Date instance, named by its ISO 8601 text. *)
Inductive Value : Type :=
| VUndefined
| VNull
| VBoolean (b : bool)
| VNumber (n : Z)
| VString (s : string)
| VArray (items : list Value)
| VDate (iso : string)
| VObject (entries : list (string * Value))
| VDateConstructor.

(** A plain object used as a record: its own properties in the order
    [Object.keys] lists them.  A real object never lists a key twice. *)
Definition Obj : Type := list (string * Value).

Definition keys (o : Obj) : list string := map fst o.

(** [o[k]] for an own key [k]: the property's value.  (The helpers read
    own keys only; for any other key the answer [undefined] stands for
    whatever the prototype holds.) *)
Fixpoint get (o : Obj) (k : string) : Value :=
  match o with
  | [] => VUndefined
  | (k', v) :: rest => if String.eqb k' k then v else get rest k
  end.

(** [o[k] = v] on an object that started as [{}]: an own property is
    overwritten in place, a new one is added last.  The key [__proto__],
    when the object has no own property of that name, is the setter it
    inherits: the assignment adds no property. *)
Fixpoint set (o : Obj) (k : string) (v : Value) : Obj :=
  match o with
  | [] => if String.eqb k "__proto__" then [] else [(k, v)]
  | (k', v') :: rest =>
      if String.eqb k' k then (k', v) :: rest else (k', v') :: set rest k v
  end.

(** [a.includes(k)] on an array of strings. *)
Definition includes (a : list string) (k : string) : bool :=
  existsb (String.eqb k) a.

(** [a.join(sep)] on an array of strings. *)
Definition join (sep : string) (a : list string) : string :=
  String.concat sep a.

(** The decimal text of an integral number, as [`${n}`] prints it (the
    code prints plain digits below 1e21). *)
Definition showNumber (n : Z) : string :=
  NilZero.string_of_int (Z.to_int n).

(** [!!s] for a string: the empty string is the only falsy one. *)
Definition truthy (s : string) : bool :=
  match s with EmptyString => false | String _ _ => true end.

(** [s.split('.')]: the pieces between the dots; never the empty list. *)
Fixpoint split_dot (s : string) : list string :=
  match s with
  | EmptyString => [EmptyString]
  | String c rest =>
      if Ascii.eqb c "."%char then EmptyString :: split_dot rest
      else match split_dot rest with
           | [] => [String c EmptyString]
           | p :: ps => String c p :: ps
           end
  end.

(** [s.replace(/s$/, '')]: one trailing [s] removed, if there is one. *)
Fixpoint strip_trailing_s (s : string) : string :=
  match s with
  | EmptyString => EmptyString
  | String c EmptyString =>
      if Ascii.eqb c "s"%char then EmptyString else s
  | String c rest => String c (strip_trailing_s rest)
  end.

(** [parts[0]] and [parts.pop()] of a [split] result. *)
Definition first (parts : list string) : string := hd EmptyString parts.
Definition pop (parts : list string) : string := last parts EmptyString.

(** [a.reduce(f)] with no initial value: the first element seeds the
    fold, and an empty array is a [TypeError]. *)
Inductive TypeError : Type := ReduceOfEmptyArray.

End Js.

Import Js.

(** A function either returns or throws. *)
Inductive Outcome (E T : Type) : Type :=
| Throw (e : E)
| Return (v : T).
Arguments Throw {E T} e.
Arguments Return {E T} v.

Definition reduce1 {A : Type} (f : A -> A -> A) (a : list A)
  : Outcome TypeError A :=
  match a with
  | [] => Throw ReduceOfEmptyArray
  | x :: rest => Return (fold_left f rest x)
  end.

(** ** [exactlyOneResult] *)

Definition exactlyOneResult {T E : Type} (result : list T) (Err : E)
  : Outcome E (option T) :=
  if negb (Nat.eqb (List.length result) 1) then Throw Err
  else Return (nth_error result 0).

(** ** Models of the host functions

    The helpers are parameterised over [snakeCase], [JSON.stringify] and
    the element text of [join].  To run them on concrete inputs, this
    module gives each an executable model over ASCII text. *)

Module Host.

Definition isUpper (c : ascii) : bool :=
  let n := nat_of_ascii c in (65 <=? n)%nat && (n <=? 90)%nat.

Definition isLower (c : ascii) : bool :=
  let n := nat_of_ascii c in (97 <=? n)%nat && (n <=? 122)%nat.

Definition isDigit (c : ascii) : bool :=
  let n := nat_of_ascii c in (48 <=? n)%nat && (n <=? 57)%nat.

Definition isAlnum (c : ascii) : bool := isUpper c || isLower c || isDigit c.

Definition toLower (c : ascii) : ascii :=
  if isUpper c then ascii_of_nat (nat_of_ascii c + 32) else c.

Definition nul : ascii := ascii_of_nat 0.

(** [input.replace(/([a-z0-9])([A-Z])/g, "$1\0$2")]. *)
Fixpoint splitLowerUpper (s : string) : string :=
  match s with
  | EmptyString => EmptyString
  | String c rest =>
      match rest with
      | String d rest' =>
          if (isLower c || isDigit c) && isUpper d
          then String c (String nul (String d (splitLowerUpper rest')))
          else String c (splitLowerUpper rest)
      | EmptyString => String c EmptyString
      end
  end.

(** [input.replace(/([A-Z])([A-Z][a-z])/g, "$1\0$2")]. *)
Fixpoint splitUpperWord (s : string) : string :=
  match s with
  | EmptyString => EmptyString
  | String c rest =>
      match rest with
      | String d (String e rest'') =>
          if isUpper c && isUpper d && isLower e
          then String c (String nul (String d (String e
                 (splitUpperWord rest''))))
          else String c (splitUpperWord rest)
      | _ => String c (splitUpperWord rest)
      end
  end.

(** The words left once every run of characters outside [A-Za-z0-9] is a
    separator and the separators at both ends are dropped. *)
Fixpoint words (current : string) (s : string) : list string :=
  match s with
  | EmptyString =>
      match current with EmptyString => [] | _ => [current] end
  | String c rest =>
      if isAlnum c then words (current ^^ String c EmptyString) rest
      else match current with
           | EmptyString => words EmptyString rest
           | _ => current :: words EmptyString rest
           end
  end.

Fixpoint lowerCase (s : string) : string :=
  match s with
  | EmptyString => EmptyString
  | String c rest => String (toLower c) (lowerCase rest)
  end.

(** [snakeCase] of [snake-case] 3: [noCase] with the two split patterns,
    the strip pattern, lower-casing, and ["_"] as the delimiter. *)
Definition snakeCase (input : string) : string :=
  String.concat "_"
    (map lowerCase (words EmptyString (splitUpperWord (splitLowerUpper input)))).

(** JSON text.  A character that JSON must escape in a string. *)
Definition hexDigit (n : nat) : ascii :=
  if (n <? 10)%nat then ascii_of_nat (48 + n) else ascii_of_nat (87 + n).

Definition escapeChar (c : ascii) : string :=
  let n := nat_of_ascii c in
  if Nat.eqb n 34 then String (ascii_of_nat 92) (String c EmptyString)
  else if Nat.eqb n 92 then String c (String c EmptyString)
  else if Nat.eqb n 8 then String (ascii_of_nat 92) "b"
  else if Nat.eqb n 9 then String (ascii_of_nat 92) "t"
  else if Nat.eqb n 10 then String (ascii_of_nat 92) "n"
  else if Nat.eqb n 12 then String (ascii_of_nat 92) "f"
  else if Nat.eqb n 13 then String (ascii_of_nat 92) "r"
  else if (n <? 32)%nat then
    String (ascii_of_nat 92)
      ("u00" ^^ String (hexDigit (n / 16)) (String (hexDigit (n mod 16))
                                              EmptyString))
  else String c EmptyString.

Fixpoint escape (s : string) : string :=
  match s with
  | EmptyString => EmptyString
  | String c rest => escapeChar c ^^ escape rest
  end.

Definition jsonString (s : string) : string :=
  String (ascii_of_nat 34) (escape s ^^ String (ascii_of_nat 34) EmptyString).

(** The JSON text of a value, [None] where [JSON.stringify] has none
    ([undefined] and functions); numbers below 1e21, which print as plain
    digits. *)
Fixpoint jsonText (v : Value) : option string :=
  match v with
  | VUndefined | VDateConstructor => None
  | VNull => Some "null"
  | VBoolean b => Some (if b then "true" else "false")
  | VNumber n => Some (showNumber n)
  | VString s => Some (jsonString s)
  | VDate iso => Some (jsonString iso)
  | VArray items =>
      Some ("[" ^^ String.concat ","
                     (map (fun item => match jsonText item with
                                       | Some text => text
                                       | None => "null"
                                       end) items) ^^ "]")
  | VObject entries =>
      Some ("{" ^^ String.concat ","
                     (flat_map (fun '(k, item) =>
                                  match jsonText item with
                                  | Some text => [jsonString k ^^ ":" ^^ text]
                                  | None => []
                                  end) entries) ^^ "}")
  end.

Definition JSON_stringify (v : Value) : Value :=
  match jsonText v with Some text => VString text | None => VUndefined end.

(** The text of a value that is not a string, as [join] needs it.  A Date
    instance prints in the host's time zone; the model prints the ISO text
    it is named by. *)
Fixpoint ToString (v : Value) : string :=
  match v with
  | VUndefined => "undefined"
  | VNull => "null"
  | VBoolean b => if b then "true" else "false"
  | VNumber n => showNumber n
  | VString s => s
  | VDate iso => iso
  | VArray items =>
      String.concat ","
        (map (fun item => match item with
                          | VUndefined | VNull => EmptyString
                          | _ => ToString item
                          end) items)
  | VObject _ => "[object Object]"
  | VDateConstructor => "function Date() { [native code] }"
  end.

End Host.

(** ** The filter data model *)

(** Modelled from the spec: the types [FilterExpression],
    [FilterSubExpressions], [BulkFilter] and [Operator] are imported from
    the package [@vramework/generic], which is not among the sources.  The
    spec's data model gives a filter node as either a leaf
    [{ field, operator, value, conditionType? }] or a group
    [{ expressions, conditionType? }], the condition type as [AND | OR],
    and the bulk filter as
    [{ filters?, sort?: { key, order }, limit?, offset?, freeText? }].
    An operator is kept as the string it is at run time. *)
Inductive ConditionType : Type := AND | OR.

Inductive FilterNode : Type :=
| Leaf (conditionType : option ConditionType) (field : string)
       (operator : string) (value : Value)
| Group (conditionType : option ConditionType)
        (expressions : list FilterNode).

Definition FilterExpression : Type := list FilterNode.

Record Sort : Type := { key : string; order : string }.

Module BulkFilter.
Record t : Type := {
  filters : option FilterExpression;
  sort : option Sort;
  limit : option float;
  offset : option float;
  freeText : option string
}.
End BulkFilter.

(** What [createFilters] returns: [{ limit, offset, sort, filter,
    filterValues }]. *)
Module Compiled.
Record t : Type := {
  limit : float;
  offset : float;
  sort : string;
  filter : string;
  filterValues : list Value
}.
End Compiled.

(** The flat entries [manageFilters] pushes: [{ conditionType }],
    [{ grouping }] and [{ table?, operator, field, value }]. *)
Inductive Grouping : Type := LParen | RParen.

Inductive Token : Type :=
| TCondition (conditionType : ConditionType)
| TGrouping (grouping : Grouping)
| TLeaf (table : option string) (operator : string) (field : string)
        (value : Value).

(** One text fragment of the filter, as the template literals of
    [createFilters] lay it out; [render] is the text itself. *)
Inductive Fragment : Type :=
| FGrouping (grouping : Grouping)
| FCondition (conditionType : ConditionType)
| FAny (conditionType : string) (index : Z) (sqlOperator : string)
       (column : string)
| FCompare (conditionType : string) (column : string)
           (sqlOperator : string) (index : Z).

(** The double quote character, and a double-quoted identifier. *)
Definition dq : string := String (ascii_of_nat 34) EmptyString.
Definition quoted (s : string) : string := dq ^^ s ^^ dq.

Definition showCondition (c : ConditionType) : string :=
  match c with AND => "AND" | OR => "OR" end.

Definition showGrouping (g : Grouping) : string :=
  match g with LParen => "(" | RParen => ")" end.

Definition render (f : Fragment) : string :=
  match f with
  | FGrouping g => showGrouping g
  | FCondition c => showCondition c
  | FAny conditionType index sqlOperator column =>
      conditionType ^^ " $" ^^ showNumber index ^^ " " ^^ sqlOperator
        ^^ " ANY (" ^^ column ^^ ")"
  | FCompare conditionType column sqlOperator index =>
      conditionType ^^ " " ^^ column ^^ " " ^^ sqlOperator
        ^^ " $" ^^ showNumber index
  end.

(** The placeholder number a fragment carries, if it carries one. *)
Definition placeholderOf (f : Fragment) : option Z :=
  match f with
  | FAny _ index _ _ | FCompare _ _ _ index => Some index
  | FGrouping _ | FCondition _ => None
  end.

(** ** [operatorToMysql] *)

Definition operatorToMysql : list (string * string) :=
  [ ("gt", ">"); ("gte", ">="); ("lt", "<"); ("lte", "<=");
    ("eq", "="); ("ne", "!="); ("on", "="); ("after", ">");
    ("before", "<") ]%string.

(** [m.get(k)] on a [Map] with string keys; [m.has(k)] is whether it
    answers. *)
Fixpoint map_get (m : list (string * string)) (k : string) : option string :=
  match m with
  | [] => None
  | (k', v) :: rest => if String.eqb k' k then Some v else map_get rest k
  end.

Definition map_has (m : list (string * string)) (k : string) : bool :=
  match map_get m k with Some _ => true | None => false end.

(** ** [manageFilters] *)

(** [if (expression.conditionType) result.push({ conditionType })]. *)
Definition pushCondition (result : list Token) (c : option ConditionType)
  : list Token :=
  match c with
  | Some conditionType => result ++ [TCondition conditionType]
  | None => result
  end.

(** The callback of the [reduce] in [manageFilters], and [manageFilters]
    itself as the fold from the empty array. *)
Fixpoint manageStep (result : list Token) (expression : FilterNode)
  : list Token :=
  match expression with
  | Group conditionType expressions =>
      let result := pushCondition result conditionType in
      result ++ [TGrouping LParen]
        ++ fold_left manageStep expressions []
        ++ [TGrouping RParen]
  | Leaf conditionType field operator value =>
      let result := pushCondition result conditionType in
      let parts := split_dot field in
      if Nat.eqb (List.length parts) 1 then
        result ++ [TLeaf None operator field value]
      else
        let table := strip_trailing_s (first parts) in
        let actualField := pop parts in
        result ++ [TLeaf (Some table) operator actualField value]
  end.

Definition manageFilters (expressions : FilterExpression) : list Token :=
  fold_left manageStep expressions [].

(** ** [createFilters] *)

(** [a.map((x, index) => f x index)]. *)
Fixpoint mapi_from {A B : Type} (f : A -> nat -> B) (index : nat)
  (a : list A) : list B :=
  match a with
  | [] => []
  | x :: rest => f x index :: mapi_from f (S index) rest
  end.

Definition mapi {A B : Type} (f : A -> nat -> B) (a : list A) : list B :=
  mapi_from f 0%nat a.

(** [s.trim()], over the ASCII white space (tab, line feed, vertical tab,
    form feed, carriage return, space).  The code's [trim] also strips the
    white space beyond ASCII (U+00A0, U+FEFF, U+2028 and others); the
    statements that depend on [trim] are made for texts on which the two
    agree. *)
Definition isWhitespace (c : ascii) : bool :=
  let n := nat_of_ascii c in
  ((9 <=? n)%nat && (n <=? 13)%nat) || Nat.eqb n 32.

Fixpoint trimStart (s : string) : string :=
  match s with
  | EmptyString => EmptyString
  | String c rest => if isWhitespace c then trimStart rest else s
  end.

Fixpoint trimEnd (s : string) : string :=
  match s with
  | EmptyString => EmptyString
  | String c rest =>
      match trimEnd rest with
      | EmptyString => if isWhitespace c then EmptyString
                       else String c EmptyString
      | kept => String c kept
      end
  end.

Definition trim (s : string) : string := trimEnd (trimStart s).

(** [data.freeText && data.freeText.trim()] as a condition. *)
Definition freeTextGiven (freeText : option string) : bool :=
  match freeText with
  | Some text => truthy text && truthy (trim text)
  | None => false
  end.

(** [data.limit || 1000] and [data.offset || 0].  A limit or an offset
    is any number, a binary64 float: an absent one, the zeros of both
    signs and NaN are falsy. *)
Definition falsyNumber (x : float) : bool :=
  PrimFloat.is_nan x || PrimFloat.is_zero x.

Definition orDefault (n : option float) (default : float) : float :=
  match n with
  | Some x => if falsyNumber x then default else x
  | None => default
  end.

(** [data.filters || []] and [data.filters?.length]. *)
Definition filtersOrEmpty (filters : option FilterExpression)
  : FilterExpression :=
  match filters with Some fs => fs | None => [] end.

Definition filtersLength (filters : option FilterExpression) : nat :=
  List.length (filtersOrEmpty filters).

Section DatabaseUtils.

(** The host functions the helpers call: [snakeCase] of the package
    [snake-case] (an identifier in camel or mixed case to lower-case words
    joined by underscores), [JSON.stringify], and the text [join] prints
    for an array element that is neither a string nor [null] nor
    [undefined]. *)
Variable snakeCase : string -> string.
Variable JSON_stringify : Value -> Value.
Variable ToString : Value -> string.

(** The filter list that is flattened: the explicit filters, followed
    (when free text is given) by one group of [contains] leaves.
    [createFilters] first sets [cleanFilters] to
    [manageFilters(data.filters || [])] and then overwrites it in both
    branches; only the overwriting assignments are kept. *)
Definition freeTextFilters (freeTextFields : list string) (text : string)
  : FilterExpression :=
  mapi (fun field index =>
          Leaf (if Nat.eqb index 0 then None else Some OR)
               field "contains" (VString text))
       freeTextFields.

Definition cleanFilters (data : BulkFilter.t) (freeTextFields : list string)
  : list Token :=
  if freeTextGiven (BulkFilter.freeText data) then
    let text := match BulkFilter.freeText data with
                | Some t => t | None => EmptyString end in
    let filters :=
      if (0 <? filtersLength (BulkFilter.filters data))%nat
      then filtersOrEmpty (BulkFilter.filters data) else [] in
    manageFilters
      (filters ++
       [Group (if (0 <? filtersLength (BulkFilter.filters data))%nat
               then Some AND else None)
              (freeTextFilters freeTextFields text)])
  else manageFilters (filtersOrEmpty (BulkFilter.filters data)).

(** The callback of [cleanFilters.map] in [createFilters].  It reads and
    extends [filterValues]; [None] is the [undefined] it returns for an
    entry it has no text for.  A leaf entry never has a [conditionType]
    of its own, so the destructuring default [''] stands for it.  The
    value offset is an integer and the placeholder number the exact sum;
    the code adds binary64 floats, which gives this sum as long as it is
    at most 2^53, the bound the statements about numbers carry. *)
Definition compileToken (valueOffset : Z) (filterValues : list Value)
  (token : Token) : list Value * option Fragment :=
  match token with
  | TGrouping grouping => (filterValues, Some (FGrouping grouping))
  | TCondition conditionType =>
      (filterValues, Some (FCondition conditionType))
  | TLeaf table operator field value =>
      let conditionType := EmptyString in
      let t := match table with
               | Some name => if truthy name then quoted name ^^ "." else ""
               | None => ""
               end in
      let column := t ^^ quoted (snakeCase field) in
      if String.eqb operator "includes" || String.eqb operator "excludes"
      then
        let filterValues := filterValues ++ [value] in
        (filterValues,
         Some (FAny conditionType
                 (valueOffset + Z.of_nat (List.length filterValues))
                 (if String.eqb operator "includes" then "=" else "!=")
                 (t ^^ quoted (snakeCase field))))
      else if map_has operatorToMysql operator then
        let filterValues := filterValues ++ [value] in
        (filterValues,
         Some (FCompare conditionType column
                 (match map_get operatorToMysql operator with
                  | Some sym => sym | None => "undefined" end)
                 (valueOffset + Z.of_nat (List.length filterValues))))
      else (filterValues, None)
  end.

(** The whole [map]: the values pushed and the entry-by-entry results. *)
Fixpoint compileTokens (valueOffset : Z) (filterValues : list Value)
  (tokens : list Token) : list Value * list (option Fragment) :=
  match tokens with
  | [] => (filterValues, [])
  | token :: rest =>
      let '(filterValues, fragment) :=
        compileToken valueOffset filterValues token in
      let '(filterValues, fragments) :=
        compileTokens valueOffset filterValues rest in
      (filterValues, fragment :: fragments)
  end.

(** [.filter(v => !!v)]: the fragments with a non-empty text. *)
Fixpoint truthyFragments (results : list (option Fragment))
  : list Fragment :=
  match results with
  | [] => []
  | Some f :: rest =>
      if truthy (render f) then f :: truthyFragments rest
      else truthyFragments rest
  | None :: rest => truthyFragments rest
  end.

Definition sortClause (sort : option Sort) : string :=
  match sort with
  | Some s =>
      let parts := split_dot (key s) in
      let table := if (1 <? List.length parts)%nat
                   then quoted (first parts) ^^ "." else "" in
      let field := pop parts in
      "ORDER BY " ^^ table ^^ snakeCase field ^^ " " ^^ order s
  | None => ""
  end.

(** The entries compiled, when there are any: [filterValues] and the
    [map]'s results; then the fragments [.filter(v => !!v)] keeps. *)
Definition compileFilters (data : BulkFilter.t) (freeTextFields : list string)
  (valueOffset : Z) : list Value * list (option Fragment) :=
  let tokens := cleanFilters data freeTextFields in
  if (0 <? List.length tokens)%nat
  then compileTokens valueOffset [] tokens else ([], []).

Definition emittedFragments (data : BulkFilter.t)
  (freeTextFields : list string) (valueOffset : Z) : list Fragment :=
  truthyFragments (snd (compileFilters data freeTextFields valueOffset)).

Definition createFilters (data : BulkFilter.t) (freeTextFields : list string)
  (includeWhere : bool) (valueOffset : Z) : Compiled.t :=
  let limit := orDefault (BulkFilter.limit data) 1000%float in
  let offset := orDefault (BulkFilter.offset data) 0%float in
  let sort := sortClause (BulkFilter.sort data) in
  let filterValues :=
    fst (compileFilters data freeTextFields valueOffset) in
  let filters := emittedFragments data freeTextFields valueOffset in
  let filter :=
    if (0 <? List.length filters)%nat
    then (if includeWhere then "WHERE " else "")
           ^^ join " " (map render filters)
    else "" in
  {| Compiled.limit := limit; Compiled.offset := offset;
     Compiled.sort := sort; Compiled.filter := filter;
     Compiled.filterValues := filterValues |}.

(** ** [getFilters] *)

(** The argument of [getFilters]: an array of filter nodes, or a plain
    field/value record. *)
Inductive FiltersArgument : Type :=
| FilterArray (filters : FilterExpression)
| FilterRecord (filters : Obj).

Definition onlyFilters (filters : FilterExpression) : BulkFilter.t :=
  {| BulkFilter.filters := Some filters; BulkFilter.sort := None;
     BulkFilter.limit := None; BulkFilter.offset := None;
     BulkFilter.freeText := None |}.

Definition getFilters (filters : FiltersArgument) : Compiled.t :=
  match filters with
  | FilterArray filters => createFilters (onlyFilters filters) [] true 0
  | FilterRecord filters =>
      createFilters
        (onlyFilters
           (mapi (fun '(field, value) index =>
                    Leaf (if negb (Nat.eqb index 0) then Some AND else None)
                         field "eq" value)
                 filters))
        [] true 0
  end.

(** ** [transformValues] *)

Definition isPassedThrough (value : Value) : bool :=
  match value with
  | VNumber _ | VString _ | VNull | VDateConstructor => true
  | _ => false
  end.

Definition isArray (value : Value) : bool :=
  match value with VArray _ => true | _ => false end.

(** [value.join(sep)] on an array of values: [null] and [undefined] print
    as nothing, a string as itself. *)
Definition elementText (element : Value) : string :=
  match element with
  | VUndefined | VNull => EmptyString
  | VString s => s
  | other => ToString other
  end.

Definition joinValues (sep : string) (value : Value) : string :=
  match value with
  | VArray items => join sep (map elementText items)
  | _ => EmptyString
  end.

Definition transformValues (from : Obj) : Obj :=
  fold_left
    (fun r k =>
       let value := get from k in
       if isPassedThrough value then set r k value
       else if isArray value && String.eqb k "tags" then
         set r k (VString ("{ " ^^ joinValues "," value ^^ "}"))
       else set r k (JSON_stringify value))
    (keys from) [].

(** ** [createInsert] *)

Definition isUndefined (value : Value) : bool :=
  match value with VUndefined => true | _ => false end.

Definition columnList (keys : list string) : string :=
  dq ^^ join (dq ^^ "," ^^ dq) (map snakeCase keys) ^^ dq.

Definition createInsert (data : Obj) (offset : Z)
  : string * string * list Value :=
  let keys := List.filter (fun k => negb (isUndefined (get data k)))
                          (Js.keys data) in
  let values := map (fun _ => "?") keys in
  let realValues := map (fun k => get data k) keys in
  (columnList keys, join "," values, realValues).

(** ** [createBulkInsert] *)

(** What the [bulk.map] callback reads and writes: the counter [i], the
    column names seen so far and the placeholder tuples built so far. *)
Record BulkState : Type := {
  i : Z;
  keys : list string;
  values : list string
}.

(** [keys.map(() => `$${i++}`)]: one numbered placeholder per column, the
    counter moving on by one each (exactly so up to 2^53). *)
Fixpoint numbered (i : Z) (keys : list string) : Z * list string :=
  match keys with
  | [] => (i, [])
  | _ :: rest =>
      let '(i', placeholders) := numbered (i + 1) rest in
      (i', ("$" ^^ showNumber i) :: placeholders)
  end.

Definition bulkRow (st : BulkState) (data : Obj) : BulkState * list Value :=
  let data := transformValues data in
  let keys :=
    fold_left (fun keys key => if includes keys key then keys
                               else keys ++ [key])
              (Js.keys data) (keys st) in
  let '(i, placeholders) := numbered (i st) keys in
  let values := values st ++ ["(" ^^ join "," placeholders ^^ ")"] in
  ({| i := i; keys := keys; values := values |},
   map (fun k => get data k) (Js.keys data)).

(** [bulk.map(...)], threading the state from row to row. *)
Fixpoint bulkRows (st : BulkState) (bulk : list Obj)
  : BulkState * list (list Value) :=
  match bulk with
  | [] => (st, [])
  | data :: rest =>
      let '(st, row) := bulkRow st data in
      let '(st, rows) := bulkRows st rest in
      (st, row :: rows)
  end.

Definition createBulkInsert (bulk : list Obj)
  : Outcome TypeError (string * string * list Value) :=
  let '(st, realValues) :=
    bulkRows {| i := 1; keys := []; values := [] |} bulk in
  match reduce1 (fun r v => r ++ v) realValues with
  | Throw e => Throw e
  | Return flat => Return (columnList (keys st), join "," (values st), flat)
  end.

(** ** [typed-mysql-pool.ts]: the field lists and the fetch helpers *)

(** [`${alias}`] for an optional argument: a missing one prints as the
    text [undefined]. *)
Definition showOptional (s : option string) : string :=
  match s with Some text => text | None => "undefined" end.

Definition createFields (table : string) (fields : list string)
  (alias : option string) : string :=
  let r :=
    fold_left
      (fun r field =>
         let r := r ++ ["'" ^^ field ^^ "'"] in
         r ++ [quoted (showOptional alias) ^^ "." ^^ snakeCase field])
      fields [] in
  join "," r.

Definition selectFields (table : string) (fields : list string)
  (alias : option string) : string :=
  let r :=
    fold_left
      (fun r field =>
         r ++ [quoted (showOptional alias) ^^ "." ^^ snakeCase field])
      fields [] in
  join "," r.

(** [QueryInterface]: a statement is its text, or a function from the two
    field-list helpers [{ sf, cf }] to the text. *)
Definition FieldList : Type := string -> list string -> option string -> string.

Record QueryArgs : Type := { sf : FieldList; cf : FieldList }.

Inductive QueryInterface : Type :=
| StatementText (text : string)
| StatementBuilder (build : QueryArgs -> string).

(** The driver: [this.pool.query(query, values)] either rejects with an
    error or resolves to the rows and the meta data.  A rejected promise
    is [Throw], a resolved one [Return]; the rows, the meta data and the
    errors are whatever the driver and the caller make them. *)
Variables (Row Meta JsError : Type).
Variable poolQuery :
  string -> option (list Value) -> Outcome JsError (list Row * Meta).

Record QueryResult : Type := { rows : list Row; meta : Meta }.

Definition query (statement : QueryInterface) (values : option (list Value))
  : Outcome JsError QueryResult :=
  let query :=
    match statement with
    | StatementText text => text
    | StatementBuilder build =>
        build {| cf := createFields; sf := selectFields |}
    end in
  match poolQuery query values with
  | Throw e => Throw e
  | Return (rows, meta) => Return {| rows := rows; meta := meta |}
  end.

Definition one (statement : QueryInterface) (values : list Value)
  (error : JsError) : Outcome JsError (option Row) :=
  match query statement (Some values) with
  | Throw e => Throw e
  | Return result => exactlyOneResult (rows result) error
  end.

Definition many (statement : QueryInterface) (values : list Value)
  : Outcome JsError (list Row) :=
  match query statement (Some values) with
  | Throw e => Throw e
  | Return result => Return (rows result)
  end.

(** What [crudGetAll] and [crudGet] resolve to: one row when an error
    value is passed for the other cardinalities, all the rows otherwise.
    Both end with the same lines, [if (notSingleError) return
    exactlyOneResult(result.rows, notSingleError)] and [return
    result.rows]; [fetched] is those lines. *)
Inductive Fetched : Type :=
| OneRow (row : option Row)
| AllRows (rows : list Row).

Definition fetched (result : QueryResult) (notSingleError : option JsError)
  : Outcome JsError Fetched :=
  match notSingleError with
  | Some error =>
      match exactlyOneResult (rows result) error with
      | Throw e => Throw e
      | Return row => Return (OneRow row)
      end
  | None => Return (AllRows (rows result))
  end.

Definition crudGetAll (table : string) (filters : FiltersArgument)
  (notSingleError : option JsError) : Outcome JsError Fetched :=
  let compiled := getFilters filters in
  match query
          (StatementText ("SELECT * FROM " ^^ quoted table ^^ " "
                            ^^ Compiled.filter compiled))
          (Some (Compiled.filterValues compiled)) with
  | Throw e => Throw e
  | Return result => fetched result notSingleError
  end.

(** The line feed of a template literal that runs over several lines. *)
Definition nl : string := String (ascii_of_nat 10) EmptyString.

Definition crudGet (table : string) (fields : list string)
  (filters : FiltersArgument) (notSingleError : option JsError)
  : Outcome JsError Fetched :=
  let compiled := getFilters filters in
  match query
          (StatementBuilder
             (fun args =>
                nl ^^ "      SELECT " ^^ sf args table fields None
                   ^^ nl ^^ "      FROM " ^^ quoted table
                   ^^ nl ^^ "      " ^^ Compiled.filter compiled
                   ^^ nl ^^ "    "))
          (Some (Compiled.filterValues compiled)) with
  | Throw e => Throw e
  | Return result => fetched result notSingleError
  end.

(** ** Notions the statements below are written with *)

(** The placeholder numbers of a run of fragments, in emission order. *)
Definition placeholders (fragments : list Fragment) : list Z :=
  flat_map (fun f => match placeholderOf f with
                     | Some index => [index]
                     | None => []
                     end) fragments.

(** The operators [createFilters] has a clause for: [includes],
    [excludes] and the keys of [operatorToMysql]. *)
Definition recognized (operator : string) : bool :=
  String.eqb operator "includes" || String.eqb operator "excludes"
  || map_has operatorToMysql operator.


Definition pushedValues (tokens : list Token) : list Value :=
  flat_map (fun token => match token with
                         | TLeaf _ operator _ value =>
                             if recognized operator then [value] else []
                         | TCondition _ | TGrouping _ => []
                         end) tokens.

(** Reading the placeholders off a text: a placeholder is a dollar sign
    with decimal digits right after it, and its number is the longest
    such run of digits. *)
Definition isDecimalDigit (c : ascii) : bool :=
  let n := nat_of_ascii c in (48 <=? n)%nat && (n <=? 57)%nat.

Fixpoint digitPrefix (s : string) : string :=
  match s with
  | EmptyString => EmptyString
  | String c rest =>
      if isDecimalDigit c then String c (digitPrefix rest) else EmptyString
  end.

Definition numberOf (digits : string) : option Z :=
  match digits with
  | EmptyString => None
  | _ => option_map Z.of_uint (NilEmpty.uint_of_string digits)
  end.

Fixpoint scanPlaceholders (text : string) : list Z :=
  match text with
  | EmptyString => []
  | String c rest =>
      if Ascii.eqb c "$"%char then
        match numberOf (digitPrefix rest) with
        | Some index => index :: scanPlaceholders rest
        | None => scanPlaceholders rest
        end
      else scanPlaceholders rest
  end.

(** A text without a dollar sign; and the entries whose table and
    snake-cased column have none. *)
Fixpoint dollarFree (s : string) : bool :=
  match s with
  | EmptyString => true
  | String c rest => negb (Ascii.eqb c "$"%char) && dollarFree rest
  end.

Definition cleanToken (token : Token) : bool :=
  match token with
  | TLeaf table _ field _ =>
      dollarFree (match table with Some name => name | None => EmptyString
                  end)
      && dollarFree (snakeCase field)
  | TCondition _ | TGrouping _ => true
  end.

Definition cleanColumns (tokens : list Token) : bool :=
  forallb cleanToken tokens.

(** A text of decimal digits only; a text that does not start with a
    digit; and a fragment whose condition type, operator and column are
    free of dollar signs and whose placeholder number is not negative. *)
Fixpoint allDigits (s : string) : bool :=
  match s with
  | EmptyString => true
  | String c rest => isDecimalDigit c && allDigits rest
  end.

Definition noLeadingDigit (s : string) : bool :=
  match s with
  | EmptyString => true
  | String c _ => negb (isDecimalDigit c)
  end.

Definition cleanFragment (f : Fragment) : bool :=
  match f with
  | FAny c index sym column | FCompare c column sym index =>
      dollarFree c && dollarFree sym && dollarFree column && (0 <=? index)
  | FGrouping _ | FCondition _ => true
  end.


(** What [transformValues] stores under key [k] for the value [value]. *)
Definition coerced (k : string) (value : Value) : Value :=
  if isPassedThrough value then value
  else if isArray value && String.eqb k "tags" then
    VString ("{ " ^^ joinValues "," value ^^ "}")
  else JSON_stringify value.

(** The keys an assignment [r[k] = v] makes own properties of an object
    that started as [{}]: every key but [__proto__]. *)
Definition assignable (k : string) : bool :=
  negb (String.eqb k "__proto__").

Definition assignableEntries (o : Obj) : Obj :=
  List.filter (fun kv => assignable (fst kv)) o.

(** A bulk filter with nothing set. *)
Definition noFilter : BulkFilter.t :=
  {| BulkFilter.filters := None; BulkFilter.sort := None;
     BulkFilter.limit := None; BulkFilter.offset := None;
     BulkFilter.freeText := None |}.


(** The leaves of a filter tree from left to right (operator and value),
    its condition types in the same order, and the same two readings of a
    run of entries. *)
Fixpoint nodeLeaves (e : FilterNode) : list (string * Value) :=
  match e with
  | Leaf _ _ operator value => [(operator, value)]
  | Group _ expressions => flat_map nodeLeaves expressions
  end.

Definition conditionOf (c : option ConditionType) : list ConditionType :=
  match c with Some conditionType => [conditionType] | None => [] end.

Fixpoint nodeConditions (e : FilterNode) : list ConditionType :=
  match e with
  | Leaf c _ _ _ => conditionOf c
  | Group c expressions => conditionOf c ++ flat_map nodeConditions expressions
  end.

Definition conditionTokens (c : option ConditionType) : list Token :=
  map TCondition (conditionOf c).

Definition tokenLeaf (token : Token) : list (string * Value) :=
  match token with
  | TLeaf _ operator _ value => [(operator, value)]
  | TCondition _ | TGrouping _ => []
  end.

Definition tokenCondition (token : Token) : list ConditionType :=
  match token with
  | TCondition c => [c]
  | TLeaf _ _ _ _ | TGrouping _ => []
  end.

(** The values of the leaves with a recognized operator, left to right. *)
Fixpoint recognizedValues (e : FilterNode) : list Value :=
  match e with
  | Leaf _ _ operator value => if recognized operator then [value] else []
  | Group _ expressions => flat_map recognizedValues expressions
  end.

(** Parentheses: the nesting depth after a run of them, [None] once a
    closing one has nothing to close. *)
Fixpoint parenDepth (depth : nat) (groupings : list Grouping) : option nat :=
  match groupings with
  | [] => Some depth
  | LParen :: rest => parenDepth (S depth) rest
  | RParen :: rest =>
      match depth with
      | O => None
      | S below => parenDepth below rest
      end
  end.

Definition tokenGrouping (token : Token) : list Grouping :=
  match token with
  | TGrouping g => [g]
  | TCondition _ | TLeaf _ _ _ _ => []
  end.

Definition fragmentGrouping (f : Fragment) : list Grouping :=
  match f with
  | FGrouping g => [g]
  | FCondition _ | FAny _ _ _ _ | FCompare _ _ _ _ => []
  end.

(** A text without a dot; a text of white space only. *)
Fixpoint dotFree (s : string) : bool :=
  match s with
  | EmptyString => true
  | String c rest => negb (Ascii.eqb c "."%char) && dotFree rest
  end.

Fixpoint allWhitespace (s : string) : bool :=
  match s with
  | EmptyString => true
  | String c rest => isWhitespace c && allWhitespace rest
  end.

Definition withFreeText (data : BulkFilter.t) (freeText : option string)
  : BulkFilter.t :=
  {| BulkFilter.filters := BulkFilter.filters data;
     BulkFilter.sort := BulkFilter.sort data;
     BulkFilter.limit := BulkFilter.limit data;
     BulkFilter.offset := BulkFilter.offset data;
     BulkFilter.freeText := freeText |}.

(** A visible ASCII character: one of the codes 33 to 126.  It is no
    white space for [trim], whatever the encoding of the text around
    it. *)
Definition isVisible (c : ascii) : bool :=
  ((32 <? nat_of_ascii c)%nat && (nat_of_ascii c <? 127)%nat).

Fixpoint hasVisible (s : string) : bool :=
  match s with
  | EmptyString => false
  | String c rest => isVisible c || hasVisible rest
  end.

(** The column names once the keys of one more row are taken in, as the
    [forEach] of [createBulkInsert] does it. *)
Definition mergeKeys (known : list string) (rowKeys : list string)
  : list string :=
  fold_left (fun keys key => if includes keys key then keys
                             else keys ++ [key])
            rowKeys known.


Definition withSort (data : BulkFilter.t) (sort : option Sort)
  : BulkFilter.t :=
  {| BulkFilter.filters := BulkFilter.filters data;
     BulkFilter.sort := sort;
     BulkFilter.limit := BulkFilter.limit data;
     BulkFilter.offset := BulkFilter.offset data;
     BulkFilter.freeText := BulkFilter.freeText data |}.

(** The keys of the row [transformValues] makes of a record: the
    record's keys but [__proto__]. *)
Definition ownKeys (row : Obj) : list string :=
  List.filter assignable (Js.keys row).

(** The column names once the keys of the rows of [bulk] are taken in,
    one row after the other, starting from [known]. *)
Definition columnsAfter (known : list string) (bulk : list Obj)
  : list string :=
  fold_left mergeKeys (map ownKeys bulk) known.

(** The number of placeholders [createBulkInsert] writes: for each row, as
    many as there are column names once the row's keys are taken in. *)
Fixpoint placeholderCount (known : list string) (bulk : list Obj) : nat :=
  match bulk with
  | [] => 0
  | row :: rest =>
      let merged := mergeKeys known (ownKeys row) in
      (List.length merged + placeholderCount merged rest)%nat
  end.

(** The tuple of one row: [n] placeholders numbered from [start] on,
    separated by commas, between parentheses. *)
Definition tupleText (start : Z) (n : nat) : string :=
  "(" ^^ join "," (map (fun k => "$" ^^ showNumber (start + Z.of_nat k))
                       (seq 0 n)) ^^ ")".

(** The tuples [createBulkInsert] writes for the rows of [bulk], the
    counter at [start] and the column names [known] before them. *)
Fixpoint bulkTuples (start : Z) (known : list string) (bulk : list Obj)
  : list string :=
  match bulk with
  | [] => []
  | row :: rest =>
      let merged := mergeKeys known (ownKeys row) in
      tupleText start (List.length merged)
        :: bulkTuples (start + Z.of_nat (List.length merged)) merged rest
  end.

(** The text [query] hands to the driver for a statement. *)
Definition statementText (statement : QueryInterface) : string :=
  match statement with
  | StatementText text => text
  | StatementBuilder build =>
      build {| cf := createFields; sf := selectFields |}
  end.

(** ** Sample inputs *)

Definition pets : FilterExpression :=
  [Leaf None "pet.owner" "eq" (VString "u1");
   Group (Some AND) [Leaf None "tags" "includes" (VString "x");
                     Leaf (Some OR) "age" "gte" (VNumber 3)]].


Definition ownerOnly : FilterExpression :=
  [Leaf None "owner" "eq" (VString "u1")].

Definition zeroLimit : BulkFilter.t :=
  {| BulkFilter.filters := None; BulkFilter.sort := None;
     BulkFilter.limit := Some 0%float; BulkFilter.offset := Some 0%float;
     BulkFilter.freeText := None |}.

Definition bob : Obj :=
  [("name", VString "Bob");
   ("born", VDate "2020-01-01T00:00:00.000Z");
   ("tags", VArray [VString "a"; VString "b"])].


Definition rex : Obj :=
  [("name", VString "Rex"); ("age", VNumber 3)].

Definition tom : Obj :=
  [("name", VString "Tom"); ("age", VNull)].

Definition unset : Obj :=
  [("name", VUndefined); ("owner", VUndefined)].

(** A record with an own key [__proto__], as [JSON.parse] makes them. *)
Definition parsed : Obj :=
  [("__proto__", VString "x"); ("name", VString "Bob")].

(** A leaf whose table part holds a dollar sign and digits. *)
Definition dollarLeaf : FilterExpression :=
  [Leaf None "$5.name" "eq" (VString "x")].

(** A driver that knows one statement. *)
Definition sampleDriver (text : string) (values : option (list Value))
  : Outcome string (list Obj * nat) :=
  if String.eqb text "SELECT 1" then Return ([rex], 1%nat)
  else Throw "ER_PARSE_ERROR".

(** * Properties *)

(** ** Strings and lists *)

Lemma truthy_append_char (a b : string) (c : ascii) :
  truthy (a ^^ String c b) = true.
Proof. destruct a; reflexivity. Qed.

Lemma render_truthy (f : Fragment) : truthy (render f) = true.
Proof.
  destruct f as [[ | ] | [ | ] | c n o col | c col o n]; simpl;
    try reflexivity; apply truthy_append_char.
Qed.

Lemma get_in_keys (o : Obj) (k : string) (v : Value) :
  NoDup (Js.keys o) -> In (k, v) o -> get o k = v.
Proof.
  induction o as [ | [k' v'] rest IH]; simpl; intros Hnd Hin; [easy | ].
  inversion Hnd as [ | ? ? Hnotin Hrest]; subst.
  destruct Hin as [Heq | Hin].
  - inversion Heq; subst. now rewrite String.eqb_refl.
  - destruct (String.eqb_spec k' k) as [-> | _].
    + exfalso. apply Hnotin. unfold Js.keys.
      change k with (fst (k, v)). now apply in_map.
    + now apply IH.
Qed.

(** ** [exactlyOneResult] *)

(** C5.  [exactlyOneResult] returns the single element of a list of
    length exactly 1; on any other length (0, or 2 and more) it throws the
    caller's error value itself, whatever that value is. *)
Theorem exactlyOneResult_cardinality (T E : Type) (result : list T) (Err : E) :
  (List.length result = 1%nat ->
   exists row, result = [row]
               /\ exactlyOneResult result Err = Return (Some row))
  /\ (List.length result <> 1%nat ->
      exactlyOneResult result Err = Throw Err).
Proof.
  unfold exactlyOneResult. split.
  - intros Hlen. destruct result as [ | row [ | ? ?]]; try discriminate.
    exists row. split; reflexivity.
  - intros Hlen. destruct (Nat.eqb_spec (List.length result) 1) as [Heq | _].
    + contradiction.
    + reflexivity.
Qed.

(** ** [createFilters]: limit and offset *)

(** C7, as the code has it.  [limit] is the supplied limit when one is
    supplied and is neither a zero (of either sign) nor NaN, and 1000
    when it is absent, a zero or NaN; [offset] is the supplied offset
    when one is supplied and is neither a zero nor NaN, and 0 when it is
    absent, a zero or NaN. *)
Theorem createFilters_limit_offset (data : BulkFilter.t)
  (freeTextFields : list string) (includeWhere : bool) (valueOffset : Z) :
  let r := createFilters data freeTextFields includeWhere valueOffset in
  (BulkFilter.limit data = None -> Compiled.limit r = 1000%float)
  /\ (forall x, BulkFilter.limit data = Some x ->
                PrimFloat.is_nan x || PrimFloat.is_zero x = true ->
                Compiled.limit r = 1000%float)
  /\ (forall x, BulkFilter.limit data = Some x ->
                PrimFloat.is_nan x = false -> PrimFloat.is_zero x = false ->
                Compiled.limit r = x)
  /\ (BulkFilter.offset data = None -> Compiled.offset r = 0%float)
  /\ (forall x, BulkFilter.offset data = Some x ->
                PrimFloat.is_nan x || PrimFloat.is_zero x = true ->
                Compiled.offset r = 0%float)
  /\ (forall x, BulkFilter.offset data = Some x ->
                PrimFloat.is_nan x = false -> PrimFloat.is_zero x = false ->
                Compiled.offset r = x).
Proof.
  cbn [createFilters Compiled.limit Compiled.offset].
  unfold createFilters, orDefault, falsyNumber.
  cbn [Compiled.limit Compiled.offset].
  split; [now intros -> | ]. split; [now intros x -> -> | ].
  split; [now intros x -> -> -> | ].
  split; [now intros -> | ]. split; [now intros x -> -> | ].
  now intros x -> -> ->.
Qed.

(** ** [createInsert] *)

Lemma createInsert_kept (data : Obj) :
  NoDup (Js.keys data) ->
  let kept := List.filter (fun kv => negb (isUndefined (snd kv))) data in
  List.filter (fun k => negb (isUndefined (get data k))) (Js.keys data)
    = map fst kept
  /\ map (fun k => get data k) (map fst kept) = map snd kept.
Proof.
  intros Hnd kept.
  assert (Hget : forall kv, In kv data -> get data (fst kv) = snd kv).
  { intros [k v] Hin. now apply get_in_keys. }
  subst kept. revert Hget. generalize (get data) as g. clear Hnd.
  induction data as [ | [k v] rest IH]; intros g Hget; simpl; [easy | ].
  assert (Hk : g k = v) by (apply (Hget (k, v)); now left).
  destruct (IH g) as [IH1 IH2]; [intros kv Hin; apply Hget; now right | ].
  rewrite Hk. destruct (isUndefined v); simpl.
  - now split.
  - split; [now rewrite IH1 | now rewrite Hk, IH2].
Qed.

Lemma map_const_repeat {A B : Type} (b : B) (l : list A) :
  map (fun _ => b) l = repeat b (List.length l).
Proof. induction l; simpl; congruence. Qed.

(** C6.  For a record (no key listed twice), [createInsert] keeps the
    entries whose value is not [undefined], in their order: the column
    list is their snake-cased keys, double-quoted and comma-separated, the
    placeholder text one [?] per kept entry, and the values are the kept
    values in the same order.  On [{name:'Bob', type:'dog', owner:
    undefined}] that is ["name","type"], two placeholders and
    ['Bob','dog'] (where [snakeCase] leaves [name] and [type] as they
    are). *)
Theorem createInsert_drops_unset (data : Obj) (offset : Z) :
  NoDup (Js.keys data) ->
  let kept := List.filter (fun kv => negb (isUndefined (snd kv))) data in
  createInsert data offset
    = (dq ^^ join (dq ^^ "," ^^ dq) (map snakeCase (map fst kept)) ^^ dq,
       join "," (repeat "?" (List.length kept)),
       map snd kept)
  /\ (snakeCase "name" = "name" -> snakeCase "type" = "type" ->
      createInsert [("name", VString "Bob"); ("type", VString "dog");
                    ("owner", VUndefined)] offset
        = (quoted "name" ^^ "," ^^ quoted "type", "?,?",
           [VString "Bob"; VString "dog"])).
Proof.
  intros Hnd kept. split.
  - destruct (createInsert_kept data Hnd) as [Hkeys Hvalues].
    fold kept in Hkeys, Hvalues.
    unfold createInsert, columnList. rewrite Hkeys, Hvalues.
    now rewrite map_const_repeat, length_map.
  - intros Hname Htype. unfold createInsert, columnList. cbn.
    now rewrite Hname, Htype.
Qed.

(** ** [createBulkInsert] *)

Lemma bulkRows_length (st : BulkState) (bulk : list Obj) :
  List.length (snd (bulkRows st bulk)) = List.length bulk.
Proof.
  revert st. induction bulk as [ | data rest IH]; intros st; simpl; [easy | ].
  destruct (bulkRow st data) as [st1 row].
  specialize (IH st1). destruct (bulkRows st1 rest) as [st2 rows].
  simpl in *. now rewrite IH.
Qed.

(** C9.  [createBulkInsert] of the empty list of rows throws (the
    [reduce] that concatenates the rows' values has no initial value), and
    it returns its triple exactly for the non-empty lists. *)
Theorem createBulkInsert_empty_throws :
  createBulkInsert [] = Throw ReduceOfEmptyArray
  /\ forall bulk : list Obj,
       (exists plan, createBulkInsert bulk = Return plan) <-> bulk <> [].
Proof.
  split; [reflexivity | ].
  intros bulk. unfold createBulkInsert.
  pose proof (bulkRows_length {| i := 1; keys := []; values := [] |} bulk)
    as Hlen.
  destruct (bulkRows _ bulk) as [st realValues]. simpl in Hlen.
  destruct realValues as [ | row rows]; simpl.
  - destruct bulk; [ | discriminate]. split.
    + intros [plan Hplan]. discriminate.
    + intros Hne. now contradiction Hne.
  - split.
    + intros _ ->. discriminate.
    + intros _. eexists. reflexivity.
Qed.

(** ** [transformValues] *)

Lemma set_fresh (r : Obj) (k : string) (v : Value) :
  assignable k = true -> ~ In k (Js.keys r) -> set r k v = r ++ [(k, v)].
Proof.
  unfold assignable. intros Hk.
  induction r as [ | [k' v'] rest IH]; simpl; intros Hfresh.
  - now destruct (String.eqb k "__proto__").
  - destruct (String.eqb_spec k' k) as [-> | _].
    + exfalso. apply Hfresh. now left.
    + rewrite IH; [reflexivity | ]. intros Hin. apply Hfresh. now right.
Qed.

Lemma set_proto (r : Obj) (v : Value) :
  ~ In "__proto__" (Js.keys r) -> set r "__proto__" v = r.
Proof.
  induction r as [ | [k' v'] rest IH]; simpl; intros Hfresh; [reflexivity | ].
  destruct (String.eqb_spec k' "__proto__") as [-> | _].
  - exfalso. apply Hfresh. now left.
  - rewrite IH; [reflexivity | ]. intros Hin. apply Hfresh. now right.
Qed.

Lemma assignable_proto (k : string) :
  assignable k = false -> k = "__proto__".
Proof.
  unfold assignable. now destruct (String.eqb_spec k "__proto__").
Qed.

Lemma assignable_other (k : string) :
  k <> "__proto__" -> assignable k = true.
Proof.
  unfold assignable. now destruct (String.eqb_spec k "__proto__").
Qed.

Lemma assignableEntries_keys (o : Obj) :
  Js.keys (assignableEntries o) = List.filter assignable (Js.keys o).
Proof.
  unfold assignableEntries, Js.keys.
  induction o as [ | [k v] rest IH]; simpl; [reflexivity | ].
  destruct (assignable k); simpl; now rewrite IH.
Qed.

Lemma assignableEntries_all (o : Obj) :
  ~ In "__proto__" (Js.keys o) -> assignableEntries o = o.
Proof.
  unfold assignableEntries, Js.keys.
  induction o as [ | [k v] rest IH]; simpl; intros Hfresh; [reflexivity | ].
  rewrite assignable_other by (intros ->; apply Hfresh; now left).
  rewrite IH; [reflexivity | ]. intros Hin. apply Hfresh. now right.
Qed.

Lemma transformValues_fold (g : string -> Value)
  (step : Obj -> string -> Obj) (todo : Obj) :
  (forall r k, step r k = set r k (coerced k (g k))) ->
  forall done : Obj,
    (forall kv, In kv todo -> g (fst kv) = snd kv) ->
    NoDup (Js.keys (done ++ todo)) ->
    ~ In "__proto__" (Js.keys done) ->
    fold_left step (Js.keys todo) done
    = done ++ map (fun kv => (fst kv, coerced (fst kv) (snd kv)))
                  (assignableEntries todo).
Proof.
  intros Hstep.
  induction todo as [ | [k v] rest IH]; intros done Hg Hnd Hproto; simpl.
  - now rewrite app_nil_r.
  - assert (Hk : g k = v) by (apply (Hg (k, v)); now left).
    assert (Hfresh : ~ In k (Js.keys done)).
    { unfold Js.keys in *. rewrite map_app in Hnd. simpl in Hnd.
      apply NoDup_remove_2 in Hnd. intros Hin. apply Hnd.
      apply in_or_app. now left. }
    assert (Hrest : forall kv, In kv rest -> g (fst kv) = snd kv)
      by (intros kv Hin; apply Hg; now right).
    rewrite Hstep, Hk. destruct (assignable k) eqn:Hassignable.
    + rewrite (set_fresh done k _ Hassignable Hfresh), IH; simpl.
      * now rewrite <- app_assoc.
      * exact Hrest.
      * rewrite <- app_assoc. unfold Js.keys in *.
        rewrite map_app in *. exact Hnd.
      * unfold Js.keys in *. rewrite map_app. simpl. intros Hin.
        apply in_app_or in Hin. destruct Hin as [Hin | [Heq | []]].
        -- now apply Hproto.
        -- now rewrite Heq in Hassignable.
    + apply assignable_proto in Hassignable. subst k.
      rewrite (set_proto done _ Hproto). apply IH.
      * exact Hrest.
      * unfold Js.keys in *. rewrite map_app in *. simpl in Hnd.
        now apply NoDup_remove_1 in Hnd.
      * exact Hproto.
Qed.

Lemma transformValues_map (from : Obj) :
  NoDup (Js.keys from) ->
  transformValues from
    = map (fun kv => (fst kv, coerced (fst kv) (snd kv)))
          (assignableEntries from).
Proof.
  intros Hnd. unfold transformValues.
  apply (transformValues_fold (get from) _ from);
    [ | | exact Hnd | intros []].
  - intros r k. unfold coerced. cbv zeta.
    destruct (isPassedThrough (get from k)); [reflexivity | ].
    now destruct (isArray (get from k) && String.eqb k "tags").
  - intros [k v] Hin. now apply get_in_keys.
Qed.

Lemma transformValues_keys (from : Obj) :
  NoDup (Js.keys from) ->
  Js.keys (transformValues from) = List.filter assignable (Js.keys from).
Proof.
  intros Hnd. rewrite (transformValues_map from Hnd).
  rewrite <- assignableEntries_keys.
  unfold Js.keys. rewrite map_map. now apply map_ext.
Qed.

Lemma transformValues_get (from : Obj) (k : string) (value : Value) :
  NoDup (Js.keys from) -> In (k, value) from -> assignable k = true ->
  get (transformValues from) k = coerced k value.
Proof.
  intros Hnd Hin Hk. apply get_in_keys.
  - rewrite transformValues_keys by exact Hnd.
    now apply NoDup_filter.
  - rewrite (transformValues_map from Hnd).
    change (k, coerced k value)
      with ((fun kv => (fst kv, coerced (fst kv) (snd kv))) (k, value)).
    apply in_map. unfold assignableEntries. apply filter_In. now split.
Qed.


(** ** [createFilters]: the sort clause *)

(** C8, on the code.  The sort clause of the key [pets.name] is qualified
    by the table as it is written, [pets], in double quotes, followed by
    the snake-cased field without quotes; [manageFilters] makes the same
    key's table [pet].  With no sort the clause is empty. *)
Theorem sortClause_keeps_table_as_written :
  Compiled.sort
    (createFilters
       {| BulkFilter.filters := None;
          BulkFilter.sort := Some {| key := "pets.name"; order := "ASC" |};
          BulkFilter.limit := None; BulkFilter.offset := None;
          BulkFilter.freeText := None |} [] true 0)
    = "ORDER BY " ^^ quoted "pets" ^^ "." ^^ snakeCase "name" ^^ " ASC"
  /\ manageFilters [Leaf None "pets.name" "eq" VNull]
     = [TLeaf (Some "pet") "eq" "name" VNull]
  /\ Compiled.sort (createFilters noFilter [] true 0) = EmptyString.
Proof.
  split; [ | split].
  - unfold createFilters, sortClause. cbn. reflexivity.
  - unfold manageFilters. cbn. reflexivity.
  - reflexivity.
Qed.

(** ** [createFilters]: free text *)

(** C2, on the code.  With free text [bob] over the columns [name] and
    [notes] and no explicit filters, the two [contains] leaves get no
    clause and push no value: the filter is [WHERE ( OR )] and there are
    no parameter values. *)
Theorem freeText_contains_has_no_clause :
  let r := createFilters
             {| BulkFilter.filters := None; BulkFilter.sort := None;
                BulkFilter.limit := None; BulkFilter.offset := None;
                BulkFilter.freeText := Some "bob" |}
             ["name"; "notes"] true 0 in
  cleanFilters
    {| BulkFilter.filters := None; BulkFilter.sort := None;
       BulkFilter.limit := None; BulkFilter.offset := None;
       BulkFilter.freeText := Some "bob" |} ["name"; "notes"]
    = [TGrouping LParen; TLeaf None "contains" "name" (VString "bob");
       TCondition OR; TLeaf None "contains" "notes" (VString "bob");
       TGrouping RParen]
  /\ Compiled.filter r = "WHERE ( OR )"
  /\ Compiled.filterValues r = [].
Proof.
  cbv zeta. split; [ | split].
  - unfold cleanFilters, manageFilters. cbn. reflexivity.
  - unfold createFilters, emittedFragments, compileFilters, cleanFilters.
    cbn. reflexivity.
  - unfold createFilters, compileFilters, cleanFilters. cbn. reflexivity.
Qed.

(** ** [getFilters] *)

(** C3, as the code has it.  Where [snakeCase] leaves [id], [owner] and
    [type] as they are, the record [{id: 'abc'}] compiles to the text
    [WHERE], two spaces, ["id" = $1] with the values ['abc'], and the
    leaves [owner eq 'u1'], [AND type eq 'dog'] to [WHERE], two spaces,
    ["owner" = $1 AND], two spaces, ["type" = $2] with ['u1','dog']: each
    comparison starts with the space that follows its empty condition
    type. *)
Theorem getFilters_examples :
  snakeCase "id" = "id" -> snakeCase "owner" = "owner" ->
  snakeCase "type" = "type" ->
  let r1 := getFilters (FilterRecord [("id", VString "abc")]) in
  let r2 := getFilters
              (FilterArray [Leaf None "owner" "eq" (VString "u1");
                            Leaf (Some AND) "type" "eq" (VString "dog")]) in
  Compiled.filter r1 = "WHERE  " ^^ quoted "id" ^^ " = $1"
  /\ Compiled.filterValues r1 = [VString "abc"]
  /\ Compiled.filter r2
     = "WHERE  " ^^ quoted "owner" ^^ " = $1 AND  " ^^ quoted "type"
         ^^ " = $2"
  /\ Compiled.filterValues r2 = [VString "u1"; VString "dog"].
Proof.
  intros Hid Howner Htype. cbv zeta.
  unfold getFilters, createFilters, emittedFragments, compileFilters,
    cleanFilters, manageFilters.
  cbn. rewrite Hid, Howner, Htype. cbn. repeat split.
Qed.

(** ** [manageFilters] is a concatenation *)

Lemma pushCondition_app (result : list Token) (c : option ConditionType) :
  pushCondition result c = result ++ pushCondition [] c.
Proof. destruct c; simpl; [reflexivity | now rewrite app_nil_r]. Qed.

Lemma manageStep_app (result : list Token) (expression : FilterNode) :
  manageStep result expression = result ++ manageStep [] expression.
Proof.
  destruct expression as [c field operator value | c expressions]; simpl;
    rewrite (pushCondition_app result c).
  - destruct (Nat.eqb _ 1); now rewrite <- !app_assoc.
  - now rewrite <- !app_assoc.
Qed.

Lemma manageFilters_fold (expressions : FilterExpression) :
  forall result,
    fold_left manageStep expressions result
    = result ++ manageFilters expressions.
Proof.
  unfold manageFilters.
  induction expressions as [ | e rest IH]; intros result; simpl.
  - now rewrite app_nil_r.
  - rewrite (IH (manageStep result e)), (IH (manageStep [] e)).
    now rewrite (manageStep_app result e), <- app_assoc.
Qed.

Lemma manageFilters_cons (e : FilterNode) (rest : FilterExpression) :
  manageFilters (e :: rest) = manageStep [] e ++ manageFilters rest.
Proof. unfold manageFilters at 1. simpl. apply manageFilters_fold. Qed.

Lemma manageFilters_app (a b : FilterExpression) :
  manageFilters (a ++ b) = manageFilters a ++ manageFilters b.
Proof.
  induction a as [ | e rest IH]; simpl; [reflexivity | ].
  now rewrite !manageFilters_cons, IH, app_assoc.
Qed.

Lemma manageStep_group (c : option ConditionType) (es : FilterExpression) :
  manageStep [] (Group c es)
  = pushCondition [] c ++ [TGrouping LParen] ++ manageFilters es
      ++ [TGrouping RParen].
Proof. reflexivity. Qed.

Lemma manageStep_leaf (c : option ConditionType) (field operator : string)
  (value : Value) :
  exists table actualField,
    manageStep [] (Leaf c field operator value)
    = pushCondition [] c ++ [TLeaf table operator actualField value].
Proof.
  simpl. destruct (Nat.eqb _ 1); eexists; eexists; reflexivity.
Qed.

(** ** The entries compiled one after the other *)

Lemma compileTokens_app (valueOffset : Z) (a b : list Token) :
  forall filterValues,
    compileTokens valueOffset filterValues (a ++ b)
    = (fst (compileTokens valueOffset
              (fst (compileTokens valueOffset filterValues a)) b),
       snd (compileTokens valueOffset filterValues a)
         ++ snd (compileTokens valueOffset
                   (fst (compileTokens valueOffset filterValues a)) b)).
Proof.
  induction a as [ | token rest IH]; intros filterValues; simpl.
  - now destruct (compileTokens valueOffset filterValues b).
  - destruct (compileToken valueOffset filterValues token) as [vs fragment].
    rewrite (IH vs).
    now destruct (compileTokens valueOffset vs rest).
Qed.

Lemma compileToken_unrecognized (valueOffset : Z) (filterValues : list Value)
  (table : option string) (operator field : string) (value : Value) :
  recognized operator = false ->
  compileToken valueOffset filterValues (TLeaf table operator field value)
  = (filterValues, None).
Proof.
  unfold recognized, compileToken. intros Hrec.
  apply orb_false_elim in Hrec as [Hany Hmap].
  now rewrite Hany, Hmap.
Qed.

Lemma compileToken_values (valueOffset : Z) (filterValues : list Value)
  (token : Token) :
  fst (compileToken valueOffset filterValues token)
  = filterValues ++ pushedValues [token].
Proof.
  destruct token as [c | g | table operator field value]; simpl;
    try now rewrite app_nil_r.
  unfold recognized.
  destruct (String.eqb operator "includes" || String.eqb operator "excludes");
    simpl; [reflexivity | ].
  destruct (map_has operatorToMysql operator); simpl;
    [reflexivity | now rewrite app_nil_r].
Qed.

Lemma pushedValues_cons (token : Token) (rest : list Token) :
  pushedValues (token :: rest) = pushedValues [token] ++ pushedValues rest.
Proof. unfold pushedValues. simpl. now rewrite app_nil_r. Qed.

Lemma compileTokens_single (valueOffset : Z) (filterValues : list Value)
  (token : Token) :
  compileTokens valueOffset filterValues [token]
  = (fst (compileToken valueOffset filterValues token),
     [snd (compileToken valueOffset filterValues token)]).
Proof.
  simpl. now destruct (compileToken valueOffset filterValues token).
Qed.

Lemma compileTokens_values (valueOffset : Z) (tokens : list Token) :
  forall filterValues,
    fst (compileTokens valueOffset filterValues tokens)
    = filterValues ++ pushedValues tokens.
Proof.
  induction tokens as [ | token rest IH]; intros filterValues.
  - simpl. now rewrite app_nil_r.
  - rewrite (pushedValues_cons token rest).
    change (token :: rest) with ([token] ++ rest).
    rewrite compileTokens_app. cbn [fst].
    rewrite IH, compileTokens_single. cbn [fst].
    now rewrite compileToken_values, app_assoc.
Qed.

Lemma compileTokens_length (valueOffset : Z) (tokens : list Token) :
  forall filterValues,
    List.length (snd (compileTokens valueOffset filterValues tokens))
    = List.length tokens.
Proof.
  induction tokens as [ | token rest IH]; intros filterValues; simpl.
  - reflexivity.
  - destruct (compileToken valueOffset filterValues token) as [vs fragment].
    specialize (IH vs).
    destruct (compileTokens valueOffset vs rest) as [vs' fragments].
    simpl in *. now rewrite IH.
Qed.

Lemma truthyFragments_app (a b : list (option Fragment)) :
  truthyFragments (a ++ b) = truthyFragments a ++ truthyFragments b.
Proof.
  induction a as [ | [f | ] rest IH]; simpl; [reflexivity | | exact IH].
  rewrite render_truthy. simpl. now rewrite IH.
Qed.

Lemma placeholders_app (a b : list Fragment) :
  placeholders (a ++ b) = placeholders a ++ placeholders b.
Proof. unfold placeholders. apply flat_map_app. Qed.

Lemma compileToken_placeholders (valueOffset : Z) (filterValues : list Value)
  (token : Token) :
  placeholders
    (truthyFragments [snd (compileToken valueOffset filterValues token)])
  = map (fun k => valueOffset + Z.of_nat k)
        (seq (S (List.length filterValues))
             (List.length (pushedValues [token]))).
Proof.
  destruct token as [[ | ] | [ | ] | table operator field value]; simpl;
    try reflexivity.
  unfold recognized.
  destruct (String.eqb operator "includes" || String.eqb operator "excludes");
    simpl.
  - rewrite length_app, Nat.add_1_r. reflexivity.
  - destruct (map_has operatorToMysql operator); simpl; [ | reflexivity].
    rewrite length_app, Nat.add_1_r. reflexivity.
Qed.

Lemma compileTokens_placeholders (valueOffset : Z) (tokens : list Token) :
  forall filterValues,
    placeholders
      (truthyFragments (snd (compileTokens valueOffset filterValues tokens)))
    = map (fun k => valueOffset + Z.of_nat k)
          (seq (S (List.length filterValues))
               (List.length (pushedValues tokens))).
Proof.
  induction tokens as [ | token rest IH]; intros filterValues;
    [reflexivity | ].
  change (token :: rest) with ([token] ++ rest).
  rewrite compileTokens_app. cbn [snd].
  rewrite truthyFragments_app, placeholders_app.
  rewrite IH, compileTokens_values, length_app.
  rewrite compileTokens_single. cbn [fst snd].
  rewrite compileToken_placeholders.
  change (pushedValues ([token] ++ rest)) with (pushedValues (token :: rest)).
  rewrite (pushedValues_cons token rest), length_app, seq_app, map_app.
  reflexivity.
Qed.

Lemma compileFilters_tokens (data : BulkFilter.t)
  (freeTextFields : list string) (valueOffset : Z) :
  compileFilters data freeTextFields valueOffset
  = compileTokens valueOffset [] (cleanFilters data freeTextFields).
Proof.
  unfold compileFilters.
  now destruct (cleanFilters data freeTextFields).
Qed.

Lemma compileToken_binding (valueOffset : Z) (filterValues : list Value)
  (token : Token) (fragment : Fragment) (index : Z) :
  snd (compileToken valueOffset filterValues token) = Some fragment ->
  placeholderOf fragment = Some index ->
  exists table operator field value,
    token = TLeaf table operator field value
    /\ fst (compileToken valueOffset filterValues token)
       = filterValues ++ [value]
    /\ Z.to_nat (index - 1 - valueOffset) = List.length filterValues.
Proof.
  destruct token as [c | g | table operator field value]; simpl.
  - intros [= <-]. discriminate.
  - intros [= <-]. discriminate.
  - intros Hfragment Hindex. exists table, operator, field, value.
    split; [reflexivity | ].
    destruct (String.eqb operator "includes"
              || String.eqb operator "excludes"); simpl in *.
    + injection Hfragment as <-. injection Hindex as <-.
      split; [reflexivity | ]. rewrite length_app. simpl. lia.
    + destruct (map_has operatorToMysql operator); simpl in *;
        [ | discriminate].
      injection Hfragment as <-. injection Hindex as <-.
      split; [reflexivity | ]. rewrite length_app. simpl. lia.
Qed.

Lemma compileTokens_binding (valueOffset : Z) (tokens : list Token) :
  forall filterValues k token fragment index,
    nth_error tokens k = Some token ->
    nth_error (snd (compileTokens valueOffset filterValues tokens)) k
      = Some (Some fragment) ->
    placeholderOf fragment = Some index ->
    exists table operator field value,
      token = TLeaf table operator field value
      /\ nth_error (fst (compileTokens valueOffset filterValues tokens))
                   (Z.to_nat (index - 1 - valueOffset))
         = Some value.
Proof.
  induction tokens as [ | first rest IH];
    intros filterValues k token fragment index Htoken Hfragment Hindex.
  - destruct k; discriminate.
  - change (first :: rest) with ([first] ++ rest) in Hfragment |- *.
    rewrite compileTokens_app, compileTokens_single in *.
    cbn [fst snd] in *. destruct k as [ | k]; simpl in Htoken, Hfragment.
    + injection Htoken as ->. injection Hfragment as Hfragment.
      destruct (compileToken_binding _ _ _ _ _ Hfragment Hindex)
        as (table & operator & field & value & -> & Hpushed & Hposition).
      exists table, operator, field, value. split; [reflexivity | ].
      rewrite compileTokens_values, Hpushed, Hposition, <- app_assoc.
      rewrite nth_error_app2 by lia. now rewrite Nat.sub_diag.
    + now apply (IH _ k token fragment index).
Qed.

(** ** Reading the placeholders off the filter text *)

Lemma append_assoc (a b c : string) : (a ^^ b) ^^ c = a ^^ b ^^ c.
Proof. induction a; simpl; congruence. Qed.

Lemma append_nil_r (a : string) : a ^^ EmptyString = a.
Proof. induction a; simpl; congruence. Qed.

Lemma dollarFree_append (a b : string) :
  dollarFree (a ^^ b) = dollarFree a && dollarFree b.
Proof.
  induction a as [ | c a IH]; simpl; [reflexivity | ].
  now rewrite IH, andb_assoc.
Qed.

Lemma scan_dollarFree (a b : string) :
  dollarFree a = true -> scanPlaceholders (a ^^ b) = scanPlaceholders b.
Proof.
  induction a as [ | c a IH]; simpl; [reflexivity | ].
  intros H. apply andb_prop in H as [Hc Ha].
  apply negb_true_iff in Hc. rewrite Hc. now apply IH.
Qed.

Lemma allDigits_uint (d : Decimal.uint) :
  allDigits (NilEmpty.string_of_uint d) = true.
Proof. induction d; simpl; auto. Qed.

Lemma allDigits_dollarFree (s : string) :
  allDigits s = true -> dollarFree s = true.
Proof.
  induction s as [ | c s IH]; simpl; [reflexivity | ].
  intros H. apply andb_prop in H as [Hc Hs]. rewrite (IH Hs), andb_true_r.
  apply negb_true_iff. destruct (Ascii.eqb_spec c "$"%char) as [-> | ];
    [discriminate | reflexivity].
Qed.

Lemma digitPrefix_append (digits rest : string) :
  allDigits digits = true -> noLeadingDigit rest = true ->
  digitPrefix (digits ^^ rest) = digits.
Proof.
  intros Hd Hrest. induction digits as [ | c s IH]; simpl in *.
  - destruct rest as [ | c rest]; simpl in *; [reflexivity | ].
    apply negb_true_iff in Hrest. now rewrite Hrest.
  - apply andb_prop in Hd as [Hc Hs]. now rewrite Hc, (IH Hs).
Qed.

Lemma showNumber_digits (n : Z) :
  0 <= n ->
  allDigits (showNumber n) = true /\ numberOf (showNumber n) = Some n.
Proof.
  intros Hn. unfold showNumber.
  pose proof (DecimalZ.of_to n) as Hround.
  destruct (Z.to_int n) as [d | d] eqn:Hd.
  - simpl in Hround. unfold NilZero.string_of_int, NilZero.string_of_uint.
    destruct d; try (split; [apply allDigits_uint | ];
      unfold numberOf; rewrite NilEmpty.usu; simpl; now rewrite Hround).
    split; [reflexivity | ]. simpl in *. now rewrite <- Hround.
  - exfalso. destruct n; simpl in Hd; try discriminate. lia.
Qed.

Lemma scan_placeholder (index : Z) (tail : string) :
  0 <= index -> noLeadingDigit tail = true ->
  scanPlaceholders (String "$" (showNumber index ^^ tail))
  = index :: scanPlaceholders tail.
Proof.
  intros Hindex Htail.
  destruct (showNumber_digits index Hindex) as [Hdigits Hnumber].
  cbn [scanPlaceholders]. rewrite Ascii.eqb_refl.
  rewrite (digitPrefix_append _ _ Hdigits Htail), Hnumber.
  now rewrite (scan_dollarFree _ tail (allDigits_dollarFree _ Hdigits)).
Qed.

Lemma scan_render (f : Fragment) (tail : string) :
  cleanFragment f = true -> noLeadingDigit tail = true ->
  scanPlaceholders (render f ^^ tail)
  = placeholders [f] ++ scanPlaceholders tail.
Proof.
  intros Hclean Htail.
  destruct f as [[ | ] | [ | ] | c index sym column | c column sym index];
    try reflexivity; simpl in Hclean;
    apply andb_prop in Hclean as [Hclean Hindex];
    apply andb_prop in Hclean as [Hclean Hcolumn];
    apply andb_prop in Hclean as [Hc Hsym];
    apply Z.leb_le in Hindex; cbn [render placeholders flat_map placeholderOf app].
  - replace ((c ^^ " $" ^^ showNumber index ^^ " " ^^ sym ^^ " ANY ("
                ^^ column ^^ ")") ^^ tail)
      with ((c ^^ " ")
              ^^ String "$" (showNumber index
                   ^^ (" " ^^ sym ^^ " ANY (" ^^ column ^^ ")") ^^ tail))
      by (rewrite !append_assoc; reflexivity).
    rewrite scan_dollarFree
      by (rewrite dollarFree_append, Hc; reflexivity).
    rewrite scan_placeholder; [ | exact Hindex | reflexivity].
    rewrite scan_dollarFree; [reflexivity | ].
    rewrite !dollarFree_append, Hsym, Hcolumn. reflexivity.
  - replace ((c ^^ " " ^^ column ^^ " " ^^ sym ^^ " $" ^^ showNumber index)
               ^^ tail)
      with ((c ^^ " " ^^ column ^^ " " ^^ sym ^^ " ")
              ^^ String "$" (showNumber index ^^ tail))
      by (rewrite !append_assoc; reflexivity).
    rewrite scan_dollarFree
      by (rewrite !dollarFree_append, Hc, Hcolumn, Hsym; reflexivity).
    now rewrite scan_placeholder.
Qed.

Lemma scan_join (fragments : list Fragment) :
  forallb cleanFragment fragments = true ->
  scanPlaceholders (join " " (map render fragments))
  = placeholders fragments.
Proof.
  induction fragments as [ | f rest IH]; [reflexivity | ].
  intros Hclean. simpl in Hclean. apply andb_prop in Hclean as [Hf Hrest].
  change (f :: rest) with ([f] ++ rest) at 2. rewrite placeholders_app.
  destruct rest as [ | g rest].
  - unfold join. simpl String.concat.
    rewrite <- (append_nil_r (render f)).
    now rewrite scan_render.
  - unfold join in *. cbn [map String.concat] in *.
    rewrite scan_render; [ | exact Hf | reflexivity].
    f_equal. cbn [String.append scanPlaceholders Ascii.eqb].
    simpl. now apply IH.
Qed.

Lemma map_get_dollarFree (m : list (string * string)) (k : string) :
  forallb (fun kv => dollarFree (snd kv)) m = true ->
  dollarFree (match map_get m k with
              | Some sym => sym | None => "undefined" end) = true.
Proof.
  induction m as [ | [k' sym] rest IH]; simpl; [reflexivity | ].
  intros H. apply andb_prop in H as [Hsym Hrest].
  destruct (String.eqb k' k); [exact Hsym | now apply IH].
Qed.

Lemma compileToken_clean (valueOffset : Z) (filterValues : list Value)
  (token : Token) (f : Fragment) :
  0 <= valueOffset -> cleanToken token = true ->
  snd (compileToken valueOffset filterValues token) = Some f ->
  cleanFragment f = true.
Proof.
  intros Hoffset Hclean.
  destruct token as [c | g | table operator field value].
  - now intros [= <-].
  - now intros [= <-].
  - unfold compileToken. cbv zeta. simpl in Hclean. apply andb_prop in Hclean as [Htable Hfield].
    assert (Hcolumn :
      dollarFree
        ((match table with
          | Some name => if truthy name then quoted name ^^ "." else ""
          | None => ""
          end) ^^ quoted (snakeCase field)) = true).
    { unfold quoted. destruct table as [name | ].
      - destruct (truthy name);
          rewrite !dollarFree_append, ?Htable, ?Hfield; reflexivity.
      - rewrite !dollarFree_append, Hfield. reflexivity. }
    assert (Hindex : forall vs : list Value,
              (0 <=? valueOffset + Z.of_nat (List.length vs)) = true)
      by (intros vs; apply Z.leb_le; lia).
    destruct (String.eqb operator "includes"
              || String.eqb operator "excludes"); cbn [snd].
    + intros [= <-]. cbn [cleanFragment].
      repeat (apply andb_true_intro; split);
        [reflexivity | | exact Hcolumn | apply Hindex].
      now destruct (String.eqb operator "includes").
    + destruct (map_has operatorToMysql operator); cbn [snd];
        [ | discriminate].
      intros [= <-]. cbn [cleanFragment].
      repeat (apply andb_true_intro; split);
        [reflexivity | | exact Hcolumn | apply Hindex].
      exact (map_get_dollarFree operatorToMysql operator eq_refl).
Qed.

Lemma compileTokens_clean (valueOffset : Z) (tokens : list Token) :
  0 <= valueOffset -> cleanColumns tokens = true ->
  forall filterValues,
    forallb cleanFragment
      (truthyFragments (snd (compileTokens valueOffset filterValues tokens)))
    = true.
Proof.
  intros Hoffset. induction tokens as [ | token rest IH];
    intros Hclean filterValues; [reflexivity | ].
  simpl in Hclean. apply andb_prop in Hclean as [Htoken Hrest].
  change (token :: rest) with ([token] ++ rest).
  rewrite compileTokens_app, compileTokens_single. cbn [fst snd].
  rewrite truthyFragments_app, forallb_app, (IH Hrest), andb_true_r.
  destruct (snd (compileToken valueOffset filterValues token)) as [f | ]
    eqn:Hf; simpl; [ | reflexivity].
  rewrite render_truthy. simpl.
  now rewrite (compileToken_clean _ _ _ _ Hoffset Htoken Hf).
Qed.

Lemma createFilters_text (data : BulkFilter.t)
  (freeTextFields : list string) (includeWhere : bool) (valueOffset : Z) :
  0 <= valueOffset ->
  cleanColumns (cleanFilters data freeTextFields) = true ->
  scanPlaceholders
    (Compiled.filter
       (createFilters data freeTextFields includeWhere valueOffset))
  = placeholders (emittedFragments data freeTextFields valueOffset).
Proof.
  intros Hoffset Hclean. unfold createFilters. cbn [Compiled.filter].
  destruct (emittedFragments data freeTextFields valueOffset)
    as [ | f rest] eqn:Hemitted; [reflexivity | ].
  cbn [List.length Nat.ltb Nat.leb].
  rewrite scan_dollarFree by now destruct includeWhere.
  apply scan_join. rewrite <- Hemitted. unfold emittedFragments.
  rewrite compileFilters_tokens. now apply compileTokens_clean.
Qed.

(** ** [createFilters]: placeholders *)

(** C1, as the code has it.  For a value offset that is a non-negative
    integer and, with the number of filter values added, at most 2^53
    (the range in which the code's numbers are exact): the filter text is
    the emitted fragments joined by single spaces (after [WHERE ] when
    asked for).  The fragments carry as many placeholders as there are
    filter values; their numbers, in emission order, are
    [valueOffset + 1], [valueOffset + 2], ..., one after the other; the
    entry that emitted placeholder number [index] is a leaf whose value
    is [filterValues[index - 1 - valueOffset]]; and with [valueOffset] in
    place of 0 the filter values are the same while every placeholder
    number is [valueOffset] more.  Where no table qualifier and no
    snake-cased column contains a dollar sign, the placeholders read off
    the filter text itself are these numbers. *)
Theorem createFilters_placeholders (data : BulkFilter.t)
  (freeTextFields : list string) (includeWhere : bool) (valueOffset : Z) :
  0 <= valueOffset ->
  valueOffset
    + Z.of_nat
        (List.length
           (Compiled.filterValues
              (createFilters data freeTextFields includeWhere valueOffset)))
    <= 2 ^ 53 ->
  let r := createFilters data freeTextFields includeWhere valueOffset in
  let tokens := cleanFilters data freeTextFields in
  let results := snd (compileFilters data freeTextFields valueOffset) in
  let fragments := emittedFragments data freeTextFields valueOffset in
  Compiled.filter r
    = (if (0 <? List.length fragments)%nat
       then (if includeWhere then "WHERE " else "")
              ^^ join " " (map render fragments)
       else EmptyString)
  /\ List.length (placeholders fragments)
     = List.length (Compiled.filterValues r)
  /\ placeholders fragments
     = map (fun k => valueOffset + Z.of_nat k)
           (seq 1 (List.length (Compiled.filterValues r)))
  /\ (forall k token fragment index,
        nth_error tokens k = Some token ->
        nth_error results k = Some (Some fragment) ->
        placeholderOf fragment = Some index ->
        exists table operator field value,
          token = TLeaf table operator field value
          /\ nth_error (Compiled.filterValues r)
                       (Z.to_nat (index - 1 - valueOffset))
             = Some value)
  /\ Compiled.filterValues r
     = Compiled.filterValues
         (createFilters data freeTextFields includeWhere 0)
  /\ placeholders fragments
     = map (fun index => index + valueOffset)
           (placeholders (emittedFragments data freeTextFields 0))
  /\ (cleanColumns tokens = true ->
      scanPlaceholders (Compiled.filter r)
      = map (fun k => valueOffset + Z.of_nat k)
            (seq 1 (List.length (Compiled.filterValues r)))).
Proof.
  intros Hoffset _ r tokens results fragments.
  assert (Htext : cleanColumns tokens = true ->
            scanPlaceholders (Compiled.filter r) = placeholders fragments)
    by (intros Hclean; now apply createFilters_text).
  assert (Hvalues : forall off,
            Compiled.filterValues
              (createFilters data freeTextFields includeWhere off)
            = pushedValues tokens).
  { intros off. unfold createFilters. cbn [Compiled.filterValues].
    now rewrite compileFilters_tokens, compileTokens_values. }
  assert (Hnumbers : forall off,
            placeholders (emittedFragments data freeTextFields off)
            = map (fun k => off + Z.of_nat k)
                  (seq 1 (List.length (pushedValues tokens)))).
  { intros off. unfold emittedFragments.
    rewrite compileFilters_tokens.
    apply (compileTokens_placeholders off tokens []). }
  revert Htext. subst r. rewrite !Hvalues. subst fragments.
  rewrite !Hnumbers. intros Htext.
  repeat split; try exact Htext.
  - now rewrite length_map, length_seq.
  - intros k token fragment index Htoken Hfragment Hindex.
    subst results. rewrite compileFilters_tokens in Hfragment.
    destruct (compileTokens_binding valueOffset tokens [] k token fragment
                index Htoken Hfragment Hindex)
      as (table & operator & field & value & -> & Hnth).
    exists table, operator, field, value. split; [reflexivity | ].
    now rewrite compileTokens_values in Hnth.
  - rewrite map_map. apply map_ext. intros k. lia.
Qed.

(** ** [createFilters]: a leaf with an unrecognized operator *)






(** ** [manageFilters]: what the flattening keeps *)

Lemma FilterNode_nested_ind (P : FilterNode -> Prop) :
  (forall c field operator value, P (Leaf c field operator value)) ->
  (forall c expressions, Forall P expressions -> P (Group c expressions)) ->
  forall e, P e.
Proof.
  intros Hleaf Hgroup. fix IH 1. intros [c field operator value | c es].
  - apply Hleaf.
  - apply Hgroup. induction es as [ | e rest IHrest]; constructor.
    + apply IH.
    + exact IHrest.
Qed.

Lemma manageFilters_flat_map {A : Type} (ofToken : Token -> list A)
  (ofNode : FilterNode -> list A) (expressions : FilterExpression) :
  Forall (fun e => flat_map ofToken (manageStep [] e) = ofNode e)
         expressions ->
  flat_map ofToken (manageFilters expressions) = flat_map ofNode expressions.
Proof.
  induction 1 as [ | e rest He _ IH]; [reflexivity | ].
  rewrite manageFilters_cons, flat_map_app, He, IH. reflexivity.
Qed.

Lemma pushCondition_reading {A : Type} (ofToken : Token -> list A)
  (c : option ConditionType) :
  flat_map ofToken (pushCondition [] c)
  = match c with Some conditionType => ofToken (TCondition conditionType)
                 | None => [] end.
Proof. destruct c; simpl; [now rewrite app_nil_r | reflexivity]. Qed.

Lemma manageStep_leaves (e : FilterNode) :
  flat_map tokenLeaf (manageStep [] e) = nodeLeaves e.
Proof.
  induction e as [c field operator value | c es IH]
    using FilterNode_nested_ind.
  - destruct (manageStep_leaf c field operator value)
      as (table & actualField & ->).
    rewrite flat_map_app, pushCondition_reading. now destruct c.
  - rewrite manageStep_group, !flat_map_app, pushCondition_reading.
    fold (manageFilters es).
    rewrite (manageFilters_flat_map tokenLeaf nodeLeaves es IH).
    destruct c; simpl; now rewrite app_nil_r.
Qed.

Lemma manageStep_conditions (e : FilterNode) :
  flat_map tokenCondition (manageStep [] e) = nodeConditions e.
Proof.
  induction e as [c field operator value | c es IH]
    using FilterNode_nested_ind.
  - destruct (manageStep_leaf c field operator value)
      as (table & actualField & ->).
    rewrite flat_map_app, pushCondition_reading. destruct c; reflexivity.
  - rewrite manageStep_group, !flat_map_app, pushCondition_reading.
    rewrite (manageFilters_flat_map tokenCondition nodeConditions es IH).
    destruct c; simpl; now rewrite app_nil_r.
Qed.

Lemma Forall_all {A : Type} (P : A -> Prop) (l : list A) :
  (forall x, P x) -> Forall P l.
Proof. intros H. induction l; constructor; auto. Qed.

(** X1.  [manageFilters] keeps every leaf and every condition type, in
    the order of the tree: read from left to right, the leaf entries
    carry the operators and values of the tree's leaves, and the
    condition entries are the tree's condition types; so there are as
    many leaf entries as leaves. *)
Theorem manageFilters_keeps_leaves (expressions : FilterExpression) :
  flat_map tokenLeaf (manageFilters expressions)
  = flat_map nodeLeaves expressions
  /\ flat_map tokenCondition (manageFilters expressions)
     = flat_map nodeConditions expressions
  /\ List.length (List.filter (fun token => match token with
                                            | TLeaf _ _ _ _ => true
                                            | _ => false
                                            end)
                              (manageFilters expressions))
     = List.length (flat_map nodeLeaves expressions).
Proof.
  assert (Hleaves : flat_map tokenLeaf (manageFilters expressions)
                    = flat_map nodeLeaves expressions).
  { apply manageFilters_flat_map, Forall_all, manageStep_leaves. }
  split; [exact Hleaves | ]. split.
  - apply manageFilters_flat_map, Forall_all, manageStep_conditions.
  - rewrite <- Hleaves. generalize (manageFilters expressions) as tokens.
    induction tokens as [ | [c | g | t o f v] rest IH]; simpl; congruence.
Qed.

(** X2.  [manageFilters] flattens piece by piece: the entries of a list
    are the entries of its parts one after the other, and a group is its
    condition type (if it has one), an opening parenthesis, the entries of
    its children and a closing parenthesis. *)
Theorem manageFilters_concatenates (a b : FilterExpression)
  (c : option ConditionType) (expressions : FilterExpression) :
  manageFilters (a ++ b) = manageFilters a ++ manageFilters b
  /\ manageFilters (a ++ Group c expressions :: b)
     = manageFilters a ++ conditionTokens c
         ++ [TGrouping LParen] ++ manageFilters expressions
         ++ [TGrouping RParen] ++ manageFilters b.
Proof.
  split; [apply manageFilters_app | ].
  rewrite manageFilters_app, manageFilters_cons, manageStep_group.
  unfold conditionTokens. destruct c; simpl; now rewrite <- !app_assoc.
Qed.

(** ** Parentheses *)

Lemma parenDepth_app (a b : list Grouping) :
  forall depth,
    parenDepth depth (a ++ b)
    = match parenDepth depth a with
      | Some after => parenDepth after b
      | None => None
      end.
Proof.
  induction a as [ | [ | ] rest IH]; intros depth; simpl.
  - reflexivity.
  - apply IH.
  - destruct depth; [reflexivity | apply IH].
Qed.

Lemma manageFilters_depth (expressions : FilterExpression) :
  Forall (fun e => forall depth,
            parenDepth depth (flat_map tokenGrouping (manageStep [] e))
            = Some depth) expressions ->
  forall depth,
    parenDepth depth (flat_map tokenGrouping (manageFilters expressions))
    = Some depth.
Proof.
  induction 1 as [ | e rest He _ IH]; intros depth; [reflexivity | ].
  rewrite manageFilters_cons, flat_map_app, parenDepth_app, He. apply IH.
Qed.

Lemma manageStep_depth (e : FilterNode) :
  forall depth,
    parenDepth depth (flat_map tokenGrouping (manageStep [] e)) = Some depth.
Proof.
  induction e as [c field operator value | c es IH]
    using FilterNode_nested_ind; intros depth.
  - destruct (manageStep_leaf c field operator value)
      as (table & actualField & ->).
    rewrite flat_map_app, pushCondition_reading. now destruct c.
  - rewrite manageStep_group, !flat_map_app, pushCondition_reading.
    replace (match c with
             | Some conditionType => tokenGrouping (TCondition conditionType)
             | None => []
             end) with (@nil Grouping) by now destruct c.
    cbn [app flat_map tokenGrouping parenDepth].
    rewrite parenDepth_app, (manageFilters_depth es IH). reflexivity.
Qed.

Lemma compileToken_grouping (valueOffset : Z) (filterValues : list Value)
  (token : Token) :
  flat_map fragmentGrouping
    (truthyFragments [snd (compileToken valueOffset filterValues token)])
  = tokenGrouping token.
Proof.
  destruct token as [[ | ] | [ | ] | table operator field value];
    try reflexivity.
  unfold compileToken. cbv zeta.
  destruct (String.eqb operator "includes"
            || String.eqb operator "excludes"); [reflexivity | ].
  destruct (map_has operatorToMysql operator); reflexivity.
Qed.

Lemma compileTokens_grouping (valueOffset : Z) (tokens : list Token) :
  forall filterValues,
    flat_map fragmentGrouping
      (truthyFragments (snd (compileTokens valueOffset filterValues tokens)))
    = flat_map tokenGrouping tokens.
Proof.
  induction tokens as [ | token rest IH]; intros filterValues;
    [reflexivity | ].
  change (token :: rest) with ([token] ++ rest).
  rewrite compileTokens_app, compileTokens_single. cbn [fst snd].
  rewrite truthyFragments_app, !flat_map_app, IH, compileToken_grouping.
  simpl. now rewrite app_nil_r.
Qed.

Lemma cleanFilters_flattened (data : BulkFilter.t)
  (freeTextFields : list string) :
  exists expressions,
    cleanFilters data freeTextFields = manageFilters expressions.
Proof. unfold cleanFilters. destruct (freeTextGiven _); eexists; reflexivity. Qed.

(** X3.  The parentheses are balanced: in the entries [manageFilters]
    makes, and in the fragments [createFilters] emits for any bulk filter,
    no closing parenthesis comes before its opening one and every opening
    one is closed (from whatever depth the run starts, it never goes
    below it and ends at it). *)
Theorem parentheses_balanced (expressions : FilterExpression)
  (data : BulkFilter.t) (freeTextFields : list string) (valueOffset : Z)
  (depth : nat) :
  parenDepth depth (flat_map tokenGrouping (manageFilters expressions))
  = Some depth
  /\ parenDepth depth
       (flat_map fragmentGrouping
          (emittedFragments data freeTextFields valueOffset))
     = Some depth.
Proof.
  assert (Hflat : forall es d,
            parenDepth d (flat_map tokenGrouping (manageFilters es))
            = Some d).
  { intros es d. apply manageFilters_depth, Forall_all, manageStep_depth. }
  split; [apply Hflat | ].
  unfold emittedFragments.
  rewrite compileFilters_tokens, compileTokens_grouping.
  destruct (cleanFilters_flattened data freeTextFields) as [es ->].
  apply Hflat.
Qed.

(** ** The table and the column of a field path *)

Lemma split_dot_cons (s : string) :
  exists piece pieces, split_dot s = piece :: pieces.
Proof.
  induction s as [ | c rest (piece & pieces & IH)]; simpl.
  - eexists; eexists; reflexivity.
  - destruct (Ascii.eqb c "."%char); [eexists; eexists; reflexivity | ].
    rewrite IH. eexists; eexists; reflexivity.
Qed.

Lemma split_dot_dotFree (s : string) :
  dotFree s = true -> split_dot s = [s].
Proof.
  induction s as [ | c rest IH]; simpl; [reflexivity | ].
  intros H. apply andb_prop in H as [Hc Hrest].
  apply negb_true_iff in Hc. now rewrite Hc, (IH Hrest).
Qed.

Lemma split_dot_append (a b : string) :
  split_dot (a ^^ "." ^^ b) = split_dot a ++ split_dot b.
Proof.
  change ("." ^^ b) with (String "."%char b).
  induction a as [ | c rest IH]; [reflexivity | ].
  cbn [String.append split_dot].
  destruct (Ascii.eqb c "."%char).
  - simpl. f_equal. exact IH.
  - rewrite IH. destruct (split_dot_cons rest) as (piece & pieces & ->).
    reflexivity.
Qed.

Lemma strip_trailing_s_append (name : string) :
  strip_trailing_s (name ^^ "s") = name.
Proof.
  induction name as [ | c rest IH]; [reflexivity | ].
  cbn [String.append strip_trailing_s]. rewrite IH.
  destruct rest; reflexivity.
Qed.

Lemma last_app_singleton {A : Type} (l : list A) (x d : A) :
  last (l ++ [x]) d = x.
Proof.
  induction l as [ | y rest IH]; [reflexivity | ].
  simpl. destruct (rest ++ [x]) eqn:Hrest; [ | exact IH].
  now destruct rest.
Qed.

(** X4.  How [manageFilters] reads a leaf's field path.  A path without a
    dot is the column, with no table.  A path [table.column] gives the
    table with one trailing [s] removed and the column; whatever stands
    between the first and the last part of a longer path is dropped.  One
    [s] only is removed: the table [<name>s] becomes [<name>], also when
    [<name>] itself ends in [s]. *)
Theorem manageFilters_field_path (c : option ConditionType)
  (operator : string) (value : Value) (table middle column : string) :
  dotFree table = true -> dotFree column = true ->
  manageFilters [Leaf c column operator value]
  = conditionTokens c ++ [TLeaf None operator column value]
  /\ manageFilters [Leaf c (table ^^ "." ^^ column) operator value]
     = conditionTokens c
         ++ [TLeaf (Some (strip_trailing_s table)) operator column value]
  /\ manageFilters
       [Leaf c (table ^^ "." ^^ middle ^^ "." ^^ column) operator value]
     = conditionTokens c
         ++ [TLeaf (Some (strip_trailing_s table)) operator column value]
  /\ manageFilters
       [Leaf c ((table ^^ "s") ^^ "." ^^ column) operator value]
     = conditionTokens c ++ [TLeaf (Some table) operator column value].
Proof.
  intros Htable Hcolumn.
  assert (Hcond : pushCondition [] c = conditionTokens c)
    by now destruct c.
  assert (Hparts : forall field parts,
            split_dot field = parts ->
            manageFilters [Leaf c field operator value]
            = conditionTokens c
                ++ [if Nat.eqb (List.length parts) 1
                    then TLeaf None operator field value
                    else TLeaf (Some (strip_trailing_s (first parts)))
                           operator (pop parts) value]).
  { intros field parts <-. unfold manageFilters.
    cbn [fold_left manageStep]. rewrite Hcond.
    now destruct (Nat.eqb (List.length (split_dot field)) 1). }
  assert (Hdotted : forall t rest : string,
            dotFree t = true ->
            manageFilters [Leaf c (t ^^ "." ^^ rest ^^ "." ^^ column)
                             operator value]
            = conditionTokens c
                ++ [TLeaf (Some (strip_trailing_s t)) operator column
                      value]).
  { intros t rest Ht. destruct (split_dot_cons rest) as (piece & pieces & Hrest).
    rewrite (Hparts _ ((t :: piece :: pieces) ++ [column])).
    - unfold pop. rewrite last_app_singleton, length_app.
      reflexivity.
    - rewrite !split_dot_append, (split_dot_dotFree t Ht),
        (split_dot_dotFree column Hcolumn), Hrest. reflexivity. }
  assert (Hpair : forall t : string,
            dotFree t = true ->
            manageFilters [Leaf c (t ^^ "." ^^ column) operator value]
            = conditionTokens c
                ++ [TLeaf (Some (strip_trailing_s t)) operator column
                      value]).
  { intros t Ht. rewrite (Hparts _ [t; column]); [reflexivity | ].
    now rewrite split_dot_append, (split_dot_dotFree t Ht),
      (split_dot_dotFree column Hcolumn). }
  split; [ | split; [ | split]].
  - now rewrite (Hparts _ [column] (split_dot_dotFree column Hcolumn)).
  - now apply Hpair.
  - now apply Hdotted.
  - rewrite Hpair.
    + now rewrite strip_trailing_s_append.
    + clear -Htable. induction table as [ | ch rest IH]; [reflexivity | ].
      simpl in *. apply andb_prop in Htable as [Hch Hrest].
      now rewrite Hch, (IH Hrest).
Qed.

(** ** [createFilters]: the values, the keyword and the free text *)

Lemma pushedValues_flat_map (tokens : list Token) :
  pushedValues tokens
  = flat_map (fun token => match token with
                           | TLeaf _ operator _ value =>
                               if recognized operator then [value] else []
                           | TCondition _ | TGrouping _ => []
                           end) tokens.
Proof. reflexivity. Qed.

Lemma manageStep_recognizedValues (e : FilterNode) :
  pushedValues (manageStep [] e) = recognizedValues e.
Proof.
  induction e as [c field operator value | c es IH]
    using FilterNode_nested_ind.
  - destruct (manageStep_leaf c field operator value)
      as (table & actualField & ->).
    unfold pushedValues. rewrite flat_map_app, pushCondition_reading.
    destruct c; simpl; now rewrite app_nil_r.
  - rewrite manageStep_group. unfold pushedValues in *.
    rewrite !flat_map_app, pushCondition_reading.
    rewrite (manageFilters_flat_map _ recognizedValues es IH).
    destruct c; simpl; now rewrite app_nil_r.
Qed.

Lemma manageFilters_recognizedValues (expressions : FilterExpression) :
  pushedValues (manageFilters expressions)
  = flat_map recognizedValues expressions.
Proof.
  unfold pushedValues.
  apply manageFilters_flat_map, Forall_all, manageStep_recognizedValues.
Qed.

Lemma freeTextFilters_from (fields : list string) (text : string) :
  forall index,
    flat_map recognizedValues
      (mapi_from (fun field index =>
                    Leaf (if Nat.eqb index 0 then None else Some OR)
                         field "contains" (VString text)) index fields)
    = [].
Proof.
  induction fields as [ | field rest IH]; intros index; [reflexivity | ].
  simpl. apply IH.
Qed.

Lemma cleanFilters_recognizedValues (data : BulkFilter.t)
  (freeTextFields : list string) :
  pushedValues (cleanFilters data freeTextFields)
  = flat_map recognizedValues (filtersOrEmpty (BulkFilter.filters data)).
Proof.
  unfold cleanFilters. destruct (freeTextGiven _).
  - rewrite manageFilters_recognizedValues, flat_map_app.
    cbn [flat_map recognizedValues]. unfold freeTextFilters, mapi.
    rewrite freeTextFilters_from, !app_nil_r.
    unfold filtersLength.
    now destruct (filtersOrEmpty (BulkFilter.filters data)).
  - apply manageFilters_recognizedValues.
Qed.

(** X5.  The parameter values are the values of the leaves of
    [data.filters] whose operator is recognized ([includes], [excludes]
    or a key of [operatorToMysql]), at whatever depth, from left to
    right, and nothing else: free text, whatever the text and the
    columns, adds no value, and neither the [WHERE] switch nor the value
    offset changes them. *)
Theorem createFilters_values (data : BulkFilter.t)
  (freeTextFields : list string) (includeWhere : bool) (valueOffset : Z) :
  Compiled.filterValues
    (createFilters data freeTextFields includeWhere valueOffset)
  = flat_map recognizedValues (filtersOrEmpty (BulkFilter.filters data)).
Proof.
  unfold createFilters. cbn [Compiled.filterValues].
  rewrite compileFilters_tokens, compileTokens_values.
  apply cleanFilters_recognizedValues.
Qed.

Lemma join_truthy (sep : string) (f : Fragment) (rest : list Fragment) :
  truthy (join sep (map render (f :: rest))) = true.
Proof.
  unfold join. cbn [map String.concat].
  pose proof (render_truthy f) as Hf.
  destruct (map render rest); [exact Hf | ].
  destruct (render f); [discriminate | reflexivity].
Qed.

(** X6.  [includeWhere] decides one thing only: with it the filter text
    is the text without it after the keyword [WHERE] and a space, unless
    that text is empty, which stays empty (no bare [WHERE]); the limit,
    the offset, the sort clause and the values are the same. *)
Theorem createFilters_includeWhere (data : BulkFilter.t)
  (freeTextFields : list string) (valueOffset : Z) :
  let bare := createFilters data freeTextFields false valueOffset in
  let full := createFilters data freeTextFields true valueOffset in
  Compiled.filter full
  = (if truthy (Compiled.filter bare)
     then "WHERE " ^^ Compiled.filter bare else EmptyString)
  /\ Compiled.limit full = Compiled.limit bare
  /\ Compiled.offset full = Compiled.offset bare
  /\ Compiled.sort full = Compiled.sort bare
  /\ Compiled.filterValues full = Compiled.filterValues bare.
Proof.
  cbv zeta. unfold createFilters.
  cbn [Compiled.filter Compiled.limit Compiled.offset Compiled.sort
       Compiled.filterValues].
  repeat split.
  destruct (emittedFragments data freeTextFields valueOffset) as [ | f rest].
  - reflexivity.
  - cbn [List.length Nat.ltb Nat.leb String.append].
    now rewrite join_truthy.
Qed.

Lemma trimStart_allWhitespace (s : string) :
  allWhitespace s = true -> trimStart s = EmptyString.
Proof.
  induction s as [ | c rest IH]; simpl; [reflexivity | ].
  intros H. apply andb_prop in H as [Hc Hrest]. now rewrite Hc, IH.
Qed.

(** X7.  Free text that is empty or made of white space only (tabs, line
    feeds, vertical tabs, form feeds, carriage returns, spaces) is no
    free text: [createFilters] returns what it returns when [freeText] is
    absent. *)
Theorem createFilters_blank_freeText (data : BulkFilter.t) (text : string)
  (freeTextFields : list string) (includeWhere : bool) (valueOffset : Z) :
  allWhitespace text = true ->
  createFilters (withFreeText data (Some text)) freeTextFields includeWhere
                valueOffset
  = createFilters (withFreeText data None) freeTextFields includeWhere
                  valueOffset.
Proof.
  intros Hblank.
  assert (Hgiven : freeTextGiven (Some text) = false).
  { unfold freeTextGiven, trim.
    rewrite (trimStart_allWhitespace text Hblank). simpl.
    apply andb_false_r. }
  unfold createFilters, emittedFragments, compileFilters, cleanFilters,
    withFreeText.
  cbn [BulkFilter.freeText BulkFilter.filters BulkFilter.limit
       BulkFilter.offset BulkFilter.sort].
  rewrite Hgiven. reflexivity.
Qed.

Lemma freeText_fragments (valueOffset : Z) (text : string)
  (fields : list string) :
  forall index filterValues,
    truthyFragments
      (snd (compileTokens valueOffset filterValues
              (manageFilters
                 (mapi_from (fun field index =>
                               Leaf (if Nat.eqb index 0 then None
                                     else Some OR)
                                    field "contains" (VString text))
                            index fields))))
    = repeat (FCondition OR)
             (List.length fields - (if Nat.eqb index 0 then 1 else 0)).
Proof.
  induction fields as [ | field rest IH]; intros index filterValues.
  - now destruct (Nat.eqb index 0).
  - cbn [mapi_from]. rewrite manageFilters_cons.
    destruct (manageStep_leaf (if Nat.eqb index 0 then None else Some OR)
                field "contains" (VString text))
      as (table & actualField & ->).
    rewrite !compileTokens_app. cbn [fst snd].
    rewrite !truthyFragments_app, compileTokens_single.
    rewrite (compileToken_unrecognized valueOffset _ table "contains"
               actualField (VString text) eq_refl).
    cbn [fst snd truthyFragments app].
    rewrite IH. cbn [Nat.eqb List.length].
    destruct (Nat.eqb index 0); cbn [pushCondition app compileTokens
      compileToken snd truthyFragments Nat.sub]; [ | rewrite Nat.sub_0_r];
      reflexivity.
Qed.

Lemma isVisible_not_whitespace (c : ascii) :
  isVisible c = true -> isWhitespace c = false.
Proof.
  unfold isVisible, isWhitespace. cbv zeta. intros H.
  apply andb_prop in H as [Hlow _]. apply Nat.ltb_lt in Hlow.
  apply orb_false_intro.
  - apply andb_false_intro2. apply Nat.leb_gt. lia.
  - apply Nat.eqb_neq. lia.
Qed.

Lemma trimStart_hasVisible (s : string) :
  hasVisible s = true -> hasVisible (trimStart s) = true.
Proof.
  induction s as [ | c rest IH]; [easy | ].
  cbn [trimStart]. destruct (isWhitespace c) eqn:Hc; [ | easy].
  cbn [hasVisible]. destruct (isVisible c) eqn:Hvisible.
  - apply isVisible_not_whitespace in Hvisible. congruence.
  - exact IH.
Qed.

Lemma trimEnd_hasVisible (s : string) :
  hasVisible s = true -> truthy (trimEnd s) = true.
Proof.
  induction s as [ | c rest IH]; [easy | ].
  cbn [hasVisible trimEnd]. intros H.
  destruct (trimEnd rest) as [ | c' kept]; [ | reflexivity].
  destruct (isVisible c) eqn:Hvisible.
  - now rewrite (isVisible_not_whitespace c Hvisible).
  - cbn [orb] in H. now apply IH in H.
Qed.

Lemma hasVisible_given (text : string) :
  hasVisible text = true -> freeTextGiven (Some text) = true.
Proof.
  intros H. unfold freeTextGiven, trim. apply andb_true_intro. split.
  - now destruct text.
  - now apply trimEnd_hasVisible, trimStart_hasVisible.
Qed.

(** X8.  What free text adds.  When the free text has a visible ASCII
    character (one of the codes 33 to 126, so that [trim] leaves a text
    that is not empty), the fragments are those of the explicit filters,
    then [AND] if there is an explicit filter, an opening parenthesis,
    one [OR] fewer than there are free-text columns, and a closing
    parenthesis: the [contains] leaves themselves give no fragment. *)
Theorem createFilters_freeText_group (data : BulkFilter.t) (text : string)
  (freeTextFields : list string) (valueOffset : Z) :
  hasVisible text = true ->
  emittedFragments (withFreeText data (Some text)) freeTextFields valueOffset
  = emittedFragments (withFreeText data None) freeTextFields valueOffset
      ++ (if (0 <? filtersLength (BulkFilter.filters data))%nat
          then [FCondition AND] else [])
      ++ [FGrouping LParen]
      ++ repeat (FCondition OR) (List.length freeTextFields - 1)
      ++ [FGrouping RParen].
Proof.
  intros Hgiven. apply hasVisible_given in Hgiven.
  unfold emittedFragments.
  rewrite !compileFilters_tokens. unfold cleanFilters, withFreeText.
  cbn [BulkFilter.freeText BulkFilter.filters]. rewrite Hgiven.
  cbn [freeTextGiven].
  assert (Hfilters :
    (if (0 <? filtersLength (BulkFilter.filters data))%nat
     then filtersOrEmpty (BulkFilter.filters data) else [])
    = filtersOrEmpty (BulkFilter.filters data)).
  { unfold filtersLength.
    now destruct (filtersOrEmpty (BulkFilter.filters data)). }
  rewrite Hfilters, manageFilters_app, manageFilters_cons, manageStep_group.
  rewrite !compileTokens_app. cbn [fst snd].
  rewrite !truthyFragments_app. f_equal.
  unfold freeTextFilters, mapi. rewrite freeText_fragments.
  cbn [Nat.eqb manageFilters fold_left].
  destruct (0 <? filtersLength (BulkFilter.filters data))%nat;
    cbn [pushCondition app compileTokens compileToken fst snd
         truthyFragments render showCondition showGrouping truthy];
    now rewrite ?app_nil_r.
Qed.

Lemma numbers_moved_on (valueOffset : Z) (n m : nat) :
  forall start,
    map (fun k => valueOffset + Z.of_nat n + Z.of_nat k) (seq start m)
    = map (fun k => valueOffset + Z.of_nat k) (seq (start + n) m).
Proof.
  induction m as [ | m IH]; intros start; [reflexivity | ].
  cbn [seq map]. rewrite (IH (S start)). f_equal. lia.
Qed.

(** X9.  Value offsets chain.  For a value offset that is a
    non-negative integer and, with the values of both filters added, at
    most 2^53 (the range in which the code's numbers are exact): when a
    second filter is compiled with the value offset moved on by the
    number of values of the first, the placeholder numbers of the first
    followed by those of the second are [valueOffset + 1],
    [valueOffset + 2], ... without a gap or a repeat, as many as the two
    have values together. *)
Theorem createFilters_offsets_chain (first second : BulkFilter.t)
  (firstFields secondFields : list string) (includeWhere : bool)
  (valueOffset : Z) :
  0 <= valueOffset ->
  valueOffset
    + Z.of_nat
        (List.length
           (Compiled.filterValues
              (createFilters first firstFields includeWhere valueOffset)))
    + Z.of_nat
        (List.length
           (Compiled.filterValues
              (createFilters second secondFields includeWhere valueOffset)))
    <= 2 ^ 53 ->
  let n := List.length
             (Compiled.filterValues
                (createFilters first firstFields includeWhere valueOffset)) in
  let m := List.length
             (Compiled.filterValues
                (createFilters second secondFields includeWhere
                   (valueOffset + Z.of_nat n))) in
  placeholders (emittedFragments first firstFields valueOffset)
    ++ placeholders
         (emittedFragments second secondFields (valueOffset + Z.of_nat n))
  = map (fun k => valueOffset + Z.of_nat k) (seq 1 (n + m)).
Proof.
  intros _ _. cbv zeta. unfold createFilters, emittedFragments.
  cbn [Compiled.filterValues].
  rewrite !compileFilters_tokens, !compileTokens_values.
  rewrite !compileTokens_placeholders. cbn [app List.length].
  rewrite seq_app, map_app. f_equal. apply numbers_moved_on.
Qed.

(** ** [createFilters]: the sort clause in general *)

(** X10.  The sort clause, for a sort key without a dot, is [ORDER BY],
    the snake-cased key and the order; for a key [table.column] it is
    [ORDER BY], the table in double quotes as it is written, a dot, the
    snake-cased column without quotes, and the order; of a longer path
    only the first and the last part are used.  The filters, the free
    text, the [WHERE] switch and the value offset have no part in it. *)
Theorem createFilters_sort_forms (data : BulkFilter.t)
  (freeTextFields : list string) (includeWhere : bool) (valueOffset : Z)
  (table middle column direction : string) :
  dotFree table = true -> dotFree column = true ->
  let sorted := fun sortKey =>
    Compiled.sort
      (createFilters
         (withSort data (Some {| key := sortKey; order := direction |}))
         freeTextFields includeWhere valueOffset) in
  sorted column = "ORDER BY " ^^ snakeCase column ^^ " " ^^ direction
  /\ sorted (table ^^ "." ^^ column)
     = "ORDER BY " ^^ quoted table ^^ "." ^^ snakeCase column ^^ " "
         ^^ direction
  /\ sorted (table ^^ "." ^^ middle ^^ "." ^^ column)
     = "ORDER BY " ^^ quoted table ^^ "." ^^ snakeCase column ^^ " "
         ^^ direction.
Proof.
  intros Htable Hcolumn sorted. subst sorted.
  unfold createFilters, withSort, sortClause.
  cbn [Compiled.sort BulkFilter.sort key order].
  split; [ | split].
  - now rewrite (split_dot_dotFree column Hcolumn).
  - rewrite split_dot_append, (split_dot_dotFree table Htable),
      (split_dot_dotFree column Hcolumn).
    cbn [app List.length Nat.ltb Nat.leb first hd pop last].
    now rewrite append_assoc.
  - rewrite !split_dot_append, (split_dot_dotFree table Htable),
      (split_dot_dotFree column Hcolumn).
    destruct (split_dot_cons middle) as (piece & pieces & ->).
    change ([table] ++ (piece :: pieces) ++ [column])
      with ((table :: piece :: pieces) ++ [column]).
    unfold pop. rewrite last_app_singleton, length_app.
    cbn [app List.length Nat.ltb Nat.leb first hd Nat.add].
    now rewrite append_assoc.
Qed.

(** ** [getFilters] on a record *)



(** ** The insert builders at their edges *)

Lemma get_all_undefined (data : Obj) (k : string) :
  (forall key value, In (key, value) data -> value = VUndefined) ->
  get data k = VUndefined.
Proof.
  induction data as [ | [key value] rest IH]; intros Hall; [reflexivity | ].
  simpl. destruct (String.eqb key k).
  - apply (Hall key). now left.
  - apply IH. intros key' value' Hin. apply (Hall key'). now right.
Qed.

(** X12.  When no entry of the record is set (every value is
    [undefined], or the record is empty), [createInsert] returns the
    column list made of two double quotes with nothing between them, an
    empty placeholder text and no values, whatever [offset] is. *)
Theorem createInsert_nothing_set (data : Obj) (offset : Z) :
  (forall key value, In (key, value) data -> value = VUndefined) ->
  createInsert data offset = (dq ^^ dq, EmptyString, []).
Proof.
  intros Hall. unfold createInsert.
  assert (Hkept : List.filter (fun k => negb (isUndefined (get data k)))
                    (Js.keys data) = []).
  { generalize (Js.keys data) as names.
    induction names as [ | name rest IH]; [reflexivity | ].
    simpl. now rewrite (get_all_undefined data name Hall). }
  rewrite Hkept. reflexivity.
Qed.

Lemma coerced_passedThrough (k : string) (value : Value) :
  isPassedThrough value = true -> coerced k value = value.
Proof. unfold coerced. now intros ->. Qed.

Lemma transformValues_fresh (from : Obj) :
  NoDup (Js.keys from) -> ~ In "__proto__" (Js.keys (transformValues from)).
Proof.
  intros Hnd. rewrite transformValues_keys by exact Hnd. intros Hproto.
  apply filter_In in Hproto. now destruct Hproto as [_ Hproto].
Qed.


(** X14.  Where [JSON.stringify] returns a string or [undefined] and
    maps [undefined] to [undefined], coercing a coerced record changes
    nothing: [transformValues] is idempotent. *)
Theorem transformValues_idempotent (from : Obj) :
  (forall value, (exists text, JSON_stringify value = VString text)
                 \/ JSON_stringify value = VUndefined) ->
  JSON_stringify VUndefined = VUndefined ->
  NoDup (Js.keys from) ->
  transformValues (transformValues from) = transformValues from.
Proof.
  intros Hjson Hundefined Hnd.
  rewrite (transformValues_map (transformValues from))
    by (rewrite transformValues_keys by exact Hnd; now apply NoDup_filter).
  rewrite (assignableEntries_all (transformValues from))
    by now apply transformValues_fresh.
  rewrite (transformValues_map from Hnd), map_map. apply map_ext.
  intros [k v]. cbn [fst snd]. f_equal.
  destruct (isPassedThrough v) eqn:Hpass.
  - rewrite (coerced_passedThrough k v Hpass).
    now apply coerced_passedThrough.
  - assert (Hcoerced :
      coerced k v
      = (if isArray v && String.eqb k "tags"
         then VString ("{ " ^^ joinValues "," v ^^ "}")
         else JSON_stringify v))
      by (unfold coerced; now rewrite Hpass).
    rewrite Hcoerced.
    destruct (isArray v && String.eqb k "tags"); [reflexivity | ].
    destruct (Hjson v) as [[text ->] | ->]; [reflexivity | ].
    unfold coerced. cbn. exact Hundefined.
Qed.

(** ** [createBulkInsert]: columns, values and placeholders *)

Lemma includes_In (names : list string) (k : string) :
  includes names k = true <-> In k names.
Proof.
  unfold includes. rewrite existsb_exists. split.
  - intros (x & Hin & Heq). apply String.eqb_eq in Heq. now subst.
  - intros Hin. exists k. split; [exact Hin | apply String.eqb_refl].
Qed.

Lemma mergeKeys_spec (rowKeys : list string) :
  forall known,
    NoDup known ->
    NoDup (mergeKeys known rowKeys)
    /\ (forall k, In k (mergeKeys known rowKeys)
                  <-> In k known \/ In k rowKeys)
    /\ exists added, mergeKeys known rowKeys = known ++ added.
Proof using.
  unfold mergeKeys.
  induction rowKeys as [ | key rest IH]; intros known Hnd; cbn [fold_left].
  - split; [exact Hnd | ]. split.
    + intros k. split; [intros H; now left | intros [H | []]; exact H].
    + exists []. now rewrite app_nil_r.
  - destruct (includes known key) eqn:Hknown.
    + apply includes_In in Hknown.
      destruct (IH known Hnd) as (Hnd' & Hin & added & Hadded).
      split; [exact Hnd' | ]. split; [ | now exists added].
      intros k. rewrite Hin. split.
      * intros [H | H]; [now left | right; now right].
      * intros [H | [<- | H]]; [now left | now left | now right].
    + assert (Hfresh : ~ In key known).
      { intros Hin. apply includes_In in Hin. congruence. }
      assert (Hnd1 : NoDup (known ++ [key])).
      { apply NoDup_app; [exact Hnd | | ].
        - constructor; [intros [] | constructor].
        - intros x Hx [<- | []]. contradiction. }
      destruct (IH (known ++ [key]) Hnd1) as (Hnd' & Hin & added & Hadded).
      split; [exact Hnd' | ]. split.
      * intros k. rewrite Hin, in_app_iff. split.
        -- intros [[H | [<- | []]] | H];
             [now left | right; now left | right; now right].
        -- intros [H | [<- | H]].
           ++ left. now left.
           ++ left. right. now left.
           ++ now right.
      * exists (key :: added). rewrite Hadded, <- app_assoc. reflexivity.
Qed.

Lemma mergeKeys_known (rowKeys known : list string) :
  incl rowKeys known -> mergeKeys known rowKeys = known.
Proof.
  unfold mergeKeys.
  induction rowKeys as [ | key rest IH]; intros Hincl; [reflexivity | ].
  cbn [fold_left].
  assert (Hknown : includes known key = true)
    by (apply includes_In, Hincl; now left).
  rewrite Hknown. apply IH. intros k Hk. apply Hincl. now right.
Qed.

Lemma mergeKeys_first (rowKeys : list string) :
  NoDup rowKeys -> mergeKeys [] rowKeys = rowKeys.
Proof.
  intros Hnd. unfold mergeKeys.
  enough (H : forall known, NoDup (known ++ rowKeys) ->
              fold_left (fun keys key => if includes keys key then keys
                                         else keys ++ [key]) rowKeys known
              = known ++ rowKeys) by (apply (H [] Hnd)).
  clear Hnd. induction rowKeys as [ | key rest IH]; intros known Hnd.
  - now rewrite app_nil_r.
  - cbn [fold_left].
    assert (Hfresh : includes known key = false).
    { destruct (includes known key) eqn:Hin; [ | reflexivity].
      apply includes_In in Hin. apply NoDup_remove_2 in Hnd.
      exfalso. apply Hnd, in_or_app. now left. }
    rewrite Hfresh, IH; rewrite <- app_assoc; [reflexivity | exact Hnd].
Qed.

Lemma numbered_spec (names : list string) :
  forall start,
    numbered start names
    = (start + Z.of_nat (List.length names),
       map (fun k => "$" ^^ showNumber (start + Z.of_nat k))
           (seq 0 (List.length names))).
Proof.
  induction names as [ | name rest IH]; intros start.
  - simpl. now rewrite Z.add_0_r.
  - cbn [numbered List.length seq map]. rewrite (IH (start + 1)).
    f_equal; [lia | ]. rewrite Z.add_0_r. f_equal.
    rewrite <- seq_shift, map_map. apply map_ext. intros k.
    do 2 f_equal. lia.
Qed.

Lemma bulkRow_spec (st : BulkState) (data : Obj) :
  let merged := mergeKeys (keys st) (Js.keys (transformValues data)) in
  bulkRow st data
  = ({| i := i st + Z.of_nat (List.length merged);
        keys := merged;
        values := values st ++ [tupleText (i st) (List.length merged)] |},
     map (fun k => get (transformValues data) k)
         (Js.keys (transformValues data))).
Proof.
  cbv zeta. unfold bulkRow, tupleText.
  fold (mergeKeys (keys st) (Js.keys (transformValues data))).
  now rewrite numbered_spec.
Qed.

Lemma row_values (data : Obj) :
  NoDup (Js.keys data) ->
  map (fun k => get (transformValues data) k) (Js.keys (transformValues data))
  = map (fun entry => coerced (fst entry) (snd entry))
        (assignableEntries data).
Proof.
  intros Hnd. rewrite (transformValues_keys data Hnd).
  rewrite <- assignableEntries_keys. unfold Js.keys. rewrite map_map.
  apply map_ext_in. intros [k v] Hin. cbn [fst snd].
  unfold assignableEntries in Hin. apply filter_In in Hin.
  destruct Hin as [Hin Hk]. now apply transformValues_get.
Qed.

Lemma ownKeys_NoDup (row : Obj) :
  NoDup (Js.keys row) -> NoDup (ownKeys row).
Proof. intros Hnd. now apply NoDup_filter. Qed.

Lemma ownKeys_In (row : Obj) (k : string) :
  In k (ownKeys row) <-> k <> "__proto__" /\ In k (Js.keys row).
Proof.
  unfold ownKeys, assignable. rewrite filter_In.
  destruct (String.eqb_spec k "__proto__") as [-> | Hk]; simpl.
  - split; [now intros [_ H] | now intros [H _]].
  - split; [now intros [H _] | now intros [_ H]].
Qed.

Lemma fold_app_concat {A : Type} (rest : list (list A)) :
  forall first, fold_left (fun r v => r ++ v) rest first
                = first ++ List.concat rest.
Proof.
  induction rest as [ | row rest IH]; intros first; simpl.
  - now rewrite app_nil_r.
  - now rewrite IH, app_assoc.
Qed.

(** The state and the rows' values after [bulk.map], from the state
    before it. *)
Lemma bulkRows_spec (bulk : list Obj) :
  forall st,
    Forall (fun row => NoDup (Js.keys row)) bulk ->
    NoDup (keys st) ->
    let st' := fst (bulkRows st bulk) in
    snd (bulkRows st bulk)
    = map (fun row => map (fun entry => coerced (fst entry) (snd entry))
                          (assignableEntries row))
          bulk
    /\ keys st' = columnsAfter (keys st) bulk
    /\ NoDup (keys st')
    /\ (forall k, In k (keys st')
                  <-> In k (keys st)
                      \/ exists row, In row bulk /\ In k (ownKeys row))
    /\ (exists added, keys st' = keys st ++ added).
Proof using JSON_stringify ToString.
  unfold columnsAfter.
  induction bulk as [ | data rest IH]; intros st Hrows Hnd; cbv zeta.
  - cbn [bulkRows fst snd map fold_left]. repeat split; auto.
    + intros [H | (row & [] & _)]; exact H.
    + exists []. now rewrite app_nil_r.
  - inversion Hrows as [ | ? ? Hdata Hrest]; subst.
    cbn [bulkRows]. rewrite bulkRow_spec. cbv zeta.
    rewrite (row_values data Hdata), (transformValues_keys data Hdata).
    fold (ownKeys data).
    destruct (mergeKeys_spec (ownKeys data) (keys st) Hnd)
      as (Hnd1 & Hin1 & added1 & Hadded1).
    set (st1 := {| i := _; keys := mergeKeys (keys st) (ownKeys data);
                   values := _ |}).
    specialize (IH st1 Hrest Hnd1). cbv zeta in IH.
    destruct (bulkRows st1 rest) as [st2 rows] eqn:Hbulk.
    cbn [fst snd] in *.
    destruct IH as (Hrows2 & Hkeys2 & Hnd2 & Hin2 & added2 & Hadded2).
    split; [now rewrite Hrows2 | ]. split; [exact Hkeys2 | ].
    split; [exact Hnd2 | ]. split.
    + intros k. rewrite Hin2. subst st1. cbn [keys]. rewrite Hin1.
      split.
      * intros [[H | H] | (row & Hrow & H)]; auto.
        -- right. exists data. split; [now left | exact H].
        -- right. exists row. split; [now right | exact H].
      * intros [H | (row & [<- | Hrow] & H)]; auto.
        right. now exists row.
    + exists (added1 ++ added2). rewrite Hadded2. subst st1. cbn [keys].
      now rewrite Hadded1, <- app_assoc.
Qed.

Lemma columnsAfter_prefix (bulk : list Obj) :
  forall known, exists later, columnsAfter known bulk = known ++ later.
Proof using.
  unfold columnsAfter.
  induction bulk as [ | row rest IH]; intros known; cbn [map fold_left].
  - exists []. now rewrite app_nil_r.
  - destruct (IH (mergeKeys known (ownKeys row))) as [later ->].
    assert (Hadded : exists added,
              mergeKeys known (ownKeys row) = known ++ added).
    { unfold mergeKeys. generalize known as start.
      induction (ownKeys row) as [ | key more IHk]; intros start;
        cbn [fold_left].
      - exists []. now rewrite app_nil_r.
      - destruct (includes start key); [apply IHk | ].
        destruct (IHk (start ++ [key])) as [added ->].
        exists (key :: added). now rewrite <- app_assoc. }
    destruct Hadded as [added ->].
    exists (added ++ later). now rewrite <- app_assoc.
Qed.

(** X15.  The columns of a bulk insert.  For a non-empty list of records,
    [createBulkInsert] returns the column list of a list of names that
    has no name twice, holds exactly the keys other than [__proto__] that
    some row has, and starts with the keys of the first row other than
    [__proto__] in their order (later rows add their new keys after
    them). *)
Theorem createBulkInsert_columns (first : Obj) (rest : list Obj) :
  Forall (fun row => NoDup (Js.keys row)) (first :: rest) ->
  exists columns placeholders realValues later,
    createBulkInsert (first :: rest)
    = Return (dq ^^ join (dq ^^ "," ^^ dq) (map snakeCase columns) ^^ dq,
              placeholders, realValues)
    /\ NoDup columns
    /\ (forall k, In k columns
                  <-> k <> "__proto__"
                      /\ exists row, In row (first :: rest)
                                     /\ In k (Js.keys row))
    /\ columns
       = List.filter (fun k => negb (String.eqb k "__proto__"))
                     (Js.keys first) ++ later.
Proof using snakeCase JSON_stringify ToString.
  intros Hrows. unfold createBulkInsert.
  pose proof (bulkRows_spec (first :: rest)
                {| i := 1; keys := []; values := [] |} Hrows
                (NoDup_nil _)) as Hspec.
  cbv zeta in Hspec.
  destruct (bulkRows _ (first :: rest)) as [st realValues].
  cbn [fst snd keys] in Hspec.
  destruct Hspec as (Hvalues & Hkeys & Hnd & Hin & _).
  rewrite Hvalues. cbn [map reduce1].
  unfold columnsAfter in Hkeys. cbn [map fold_left] in Hkeys.
  inversion Hrows as [ | ? ? Hfirst Hrest]; subst.
  rewrite (mergeKeys_first (ownKeys first) (ownKeys_NoDup first Hfirst))
    in Hkeys.
  destruct (columnsAfter_prefix rest (ownKeys first)) as [later Hlater].
  unfold columnsAfter in Hlater. rewrite Hlater in Hkeys.
  exists (keys st), (join "," (values st)). eexists. exists later.
  split; [reflexivity | ]. split; [exact Hnd | ]. split; [ | exact Hkeys].
  intros k. rewrite Hin. split.
  - intros [[] | (row & Hrow & Hk)]. apply ownKeys_In in Hk.
    destruct Hk as [Hproto Hk]. split; [exact Hproto | now exists row].
  - intros (Hproto & row & Hrow & Hk). right. exists row.
    split; [exact Hrow | ]. apply ownKeys_In. now split.
Qed.

(** X16.  The values of a bulk insert.  For a non-empty list of records,
    the values [createBulkInsert] returns are the coerced values of the
    first row, then those of the second, and so on, each row in the order
    of its own keys and without the entry under the key [__proto__] if
    the row has one: as many values as the rows have entries under other
    keys, which is all the entries when no row has the key
    [__proto__]. *)
Theorem createBulkInsert_values (first : Obj) (rest : list Obj) :
  Forall (fun row => NoDup (Js.keys row)) (first :: rest) ->
  let kept := fun row : Obj =>
    List.filter (fun entry => negb (String.eqb (fst entry) "__proto__"))
                row in
  exists columns placeholders,
    createBulkInsert (first :: rest)
    = Return (columns, placeholders,
              List.concat
                (map (fun row =>
                        map (fun entry => coerced (fst entry) (snd entry))
                            (kept row))
                     (first :: rest)))
    /\ List.concat
         (map (fun row => map (fun entry => coerced (fst entry) (snd entry))
                              (kept row))
              (first :: rest))
       = List.concat (map (fun row => map snd (transformValues row))
                          (first :: rest))
    /\ List.length
         (List.concat (map (fun row => map snd (transformValues row))
                           (first :: rest)))
       = List.length (List.concat (map kept (first :: rest)))
    /\ (Forall (fun row => ~ In "__proto__" (Js.keys row)) (first :: rest) ->
        List.length
          (List.concat (map (fun row => map snd (transformValues row))
                            (first :: rest)))
        = List.length (List.concat (first :: rest))).
Proof.
  intros Hrows kept. unfold createBulkInsert.
  pose proof (bulkRows_spec (first :: rest)
                {| i := 1; keys := []; values := [] |} Hrows
                (NoDup_nil _)) as Hspec.
  cbv zeta in Hspec.
  destruct (bulkRows _ (first :: rest)) as [st realValues].
  cbn [fst snd] in Hspec. destruct Hspec as (Hvalues & _).
  change kept with assignableEntries in *. clear kept.
  assert (Hcoerced :
    map (fun row => map snd (transformValues row)) (first :: rest)
    = map (fun row => map (fun entry => coerced (fst entry) (snd entry))
                          (assignableEntries row))
          (first :: rest)).
  { apply map_ext_in. intros row Hin.
    rewrite Forall_forall in Hrows.
    rewrite (transformValues_map row (Hrows row Hin)), map_map.
    reflexivity. }
  assert (Hlength : forall bulk : list Obj,
            List.length
              (List.concat
                 (map (fun row =>
                         map (fun entry => coerced (fst entry) (snd entry))
                             (assignableEntries row)) bulk))
            = List.length (List.concat (map assignableEntries bulk))).
  { induction bulk as [ | row bulk IH]; [reflexivity | ].
    cbn [map List.concat]. now rewrite !length_app, IH, length_map. }
  rewrite Hcoerced, Hvalues, (Hlength (first :: rest)).
  cbn [map reduce1]. rewrite fold_app_concat.
  eexists. eexists. split; [reflexivity | ]. split; [reflexivity | ].
  split; [reflexivity | ].
  intros Hproto. do 2 f_equal.
  change (assignableEntries first :: map assignableEntries rest)
    with (map assignableEntries (first :: rest)).
  rewrite <- (map_id (first :: rest)) at 2.
  apply map_ext_in. intros row Hin. rewrite Forall_forall in Hproto.
  now apply assignableEntries_all, Hproto.
Qed.

Lemma join_cons_append (sep x tail : string) (rest : list string) :
  join sep (x :: rest) ^^ tail
  = x ^^ match rest with
         | [] => tail
         | _ :: _ => sep ^^ join sep rest ^^ tail
         end.
Proof.
  unfold join. destruct rest as [ | y rest]; [reflexivity | ].
  cbn [String.concat]. now rewrite !append_assoc.
Qed.

Lemma scan_number_list (numbers : list Z) (tail : string) :
  Forall (fun z => 0 <= z) numbers -> noLeadingDigit tail = true ->
  scanPlaceholders
    (join "," (map (fun z => "$" ^^ showNumber z) numbers) ^^ tail)
  = numbers ++ scanPlaceholders tail.
Proof.
  intros Hnumbers Htail.
  induction Hnumbers as [ | z rest Hz _ IH]; [reflexivity | ].
  cbn [map]. rewrite join_cons_append.
  change ("$" ^^ showNumber z) with (String "$"%char (showNumber z)).
  cbn [String.append].
  destruct rest as [ | next rest].
  - cbn [map]. now rewrite scan_placeholder.
  - cbn [map] in *. rewrite scan_placeholder; [ | exact Hz | reflexivity].
    cbn [app]. f_equal.
    cbn [String.append scanPlaceholders]. cbn [Ascii.eqb Bool.eqb].
    exact IH.
Qed.

Lemma scan_numbers (n : nat) (start : Z) (tail : string) :
  0 <= start -> noLeadingDigit tail = true ->
  scanPlaceholders
    (join "," (map (fun k => "$" ^^ showNumber (start + Z.of_nat k))
                   (seq 0 n)) ^^ tail)
  = map (fun k => start + Z.of_nat k) (seq 0 n) ++ scanPlaceholders tail.
Proof.
  intros Hstart Htail.
  rewrite <- (scan_number_list _ tail); [ | | exact Htail].
  - now rewrite map_map.
  - apply Forall_forall. intros z Hz. apply in_map_iff in Hz as (k & <- & _).
    lia.
Qed.

Lemma scan_tuple (n : nat) (start : Z) (tail : string) :
  0 <= start -> noLeadingDigit tail = true ->
  scanPlaceholders (tupleText start n ^^ tail)
  = map (fun k => start + Z.of_nat k) (seq 0 n) ++ scanPlaceholders tail.
Proof.
  intros Hstart Htail. unfold tupleText. rewrite !append_assoc.
  rewrite (scan_dollarFree "(" _ eq_refl).
  rewrite scan_numbers; [ | exact Hstart | reflexivity].
  now rewrite (scan_dollarFree ")" tail eq_refl).
Qed.

Lemma bulkRows_tuples (bulk : list Obj) :
  forall st,
    Forall (fun row => NoDup (Js.keys row)) bulk ->
    values (fst (bulkRows st bulk))
    = values st ++ bulkTuples (i st) (keys st) bulk.
Proof using JSON_stringify ToString.
  induction bulk as [ | data rest IH]; intros st Hrows.
  - cbn [bulkRows fst bulkTuples]. now rewrite app_nil_r.
  - inversion Hrows as [ | ? ? Hdata Hrest]; subst.
    cbn [bulkRows bulkTuples]. rewrite bulkRow_spec. cbv zeta.
    rewrite (transformValues_keys data Hdata). fold (ownKeys data).
    set (st1 := {| i := _; keys := mergeKeys (keys st) (ownKeys data);
                   values := _ |}).
    specialize (IH st1 Hrest).
    destruct (bulkRows st1 rest) as [st2 rows]. cbn [fst] in *.
    rewrite IH. subst st1. cbn [i keys values].
    now rewrite <- app_assoc.
Qed.

Lemma bulkTuples_length (bulk : list Obj) :
  forall start known,
    List.length (bulkTuples start known bulk) = List.length bulk.
Proof using.
  induction bulk as [ | row rest IH]; intros start known; [reflexivity | ].
  cbn [bulkTuples List.length]. now rewrite IH.
Qed.

Lemma bulkTuples_nth (bulk : list Obj) :
  forall start known r row,
    nth_error bulk r = Some row ->
    nth_error (bulkTuples start known bulk) r
    = Some (tupleText
              (start + Z.of_nat (placeholderCount known (firstn r bulk)))
              (List.length (columnsAfter known (firstn (S r) bulk)))).
Proof using.
  unfold columnsAfter.
  induction bulk as [ | data rest IH]; intros start known r row Hrow.
  - now destruct r.
  - destruct r as [ | r].
    + cbn [firstn placeholderCount bulkTuples nth_error map fold_left].
      now rewrite Z.add_0_r.
    + cbn [nth_error] in Hrow.
      cbn [bulkTuples nth_error]. rewrite (IH _ _ r row Hrow).
      cbn [firstn placeholderCount map fold_left]. do 2 f_equal. lia.
Qed.

Lemma bulkTuples_scan (bulk : list Obj) :
  forall start known tail,
    0 <= start -> noLeadingDigit tail = true ->
    scanPlaceholders (join "," (bulkTuples start known bulk) ^^ tail)
    = map (fun k => start + Z.of_nat k)
          (seq 0 (placeholderCount known bulk))
        ++ scanPlaceholders tail.
Proof using.
  induction bulk as [ | data rest IH]; intros start known tail Hstart Htail.
  - reflexivity.
  - cbn [bulkTuples placeholderCount]. rewrite join_cons_append.
    set (merged := mergeKeys known (ownKeys data)).
    rewrite seq_app, map_app, <- app_assoc.
    rewrite <- (numbers_moved_on start (List.length merged)
                  (placeholderCount merged rest) 0).
    destruct rest as [ | next more].
    + cbn [bulkTuples placeholderCount seq map app].
      now rewrite scan_tuple.
    + remember (next :: more) as rest eqn:Hrest.
      assert (Hsome : bulkTuples (start + Z.of_nat (List.length merged))
                        merged rest <> []).
      { subst rest. discriminate. }
      destruct (bulkTuples (start + Z.of_nat (List.length merged)) merged
                  rest) as [ | tuple tuples] eqn:Htuples;
        [now contradiction Hsome | ].
      rewrite scan_tuple; [ | exact Hstart | reflexivity].
      f_equal. cbn [String.append scanPlaceholders].
      cbn [Ascii.eqb Bool.eqb]. rewrite <- Htuples.
      apply IH; [lia | exact Htail].
Qed.

Lemma rowEntries_count (bulk : list Obj) :
  forall known,
    Forall (fun row => NoDup (Js.keys row)) bulk ->
    NoDup known ->
    (List.length
       (List.concat
          (map (fun row => map (fun entry => coerced (fst entry) (snd entry))
                               (assignableEntries row))
               bulk))
     <= placeholderCount known bulk)%nat.
Proof using.
  induction bulk as [ | data rest IH]; intros known Hrows Hnd.
  - apply Nat.le_refl.
  - inversion Hrows as [ | ? ? Hdata Hrest]; subst.
    cbn [map List.concat placeholderCount].
    rewrite length_app, length_map.
    destruct (mergeKeys_spec (ownKeys data) known Hnd) as (Hnd1 & Hin1 & _).
    specialize (IH (mergeKeys known (ownKeys data)) Hrest Hnd1).
    assert (Hrow : (List.length (assignableEntries data)
                    <= List.length (mergeKeys known (ownKeys data)))%nat).
    { rewrite <- (length_map fst (assignableEntries data)).
      change (map fst (assignableEntries data))
        with (Js.keys (assignableEntries data)).
      rewrite assignableEntries_keys. fold (ownKeys data).
      apply NoDup_incl_length.
      - now apply ownKeys_NoDup.
      - intros k Hk. apply Hin1. now right. }
    lia.
Qed.

Lemma numbers_from_one (n : nat) :
  map (fun k => 1 + Z.of_nat k) (seq 0 n) = map Z.of_nat (seq 1 n).
Proof.
  rewrite <- seq_shift, map_map. apply map_ext. intros k. lia.
Qed.

(** X17.  The placeholders of a bulk insert.  For a non-empty list of
    records with fewer than 2^53 placeholders to write (the range in
    which the counter is exact), the placeholder text of
    [createBulkInsert] is one tuple per row, the tuples separated by
    commas.  The tuple of a row is, between parentheses and separated by
    commas, as many placeholders as there are column names once the keys
    of the rows up to this one are taken in, numbered on from where the
    tuple of the row before stopped, the first tuple from 1.  Read off
    the whole text, the placeholders are [$1], [$2], ... in this order
    without a gap, and there are never fewer placeholders than
    values. *)
Theorem createBulkInsert_placeholders (first : Obj) (rest : list Obj) :
  Forall (fun row => NoDup (Js.keys row)) (first :: rest) ->
  Z.of_nat (placeholderCount [] (first :: rest)) < 2 ^ 53 ->
  exists columns tuples realValues,
    createBulkInsert (first :: rest)
    = Return (columns, join "," tuples, realValues)
    /\ List.length tuples = List.length (first :: rest)
    /\ (forall r row,
          nth_error (first :: rest) r = Some row ->
          nth_error tuples r
          = Some (tupleText
                    (1 + Z.of_nat
                           (placeholderCount [] (firstn r (first :: rest))))
                    (List.length
                       (columnsAfter [] (firstn (S r) (first :: rest))))))
    /\ scanPlaceholders (join "," tuples)
       = map Z.of_nat (seq 1 (placeholderCount [] (first :: rest)))
    /\ (List.length realValues
        <= placeholderCount [] (first :: rest))%nat.
Proof.
  intros Hrows _. unfold createBulkInsert.
  pose proof (bulkRows_spec (first :: rest)
                {| i := 1; keys := []; values := [] |} Hrows
                (NoDup_nil _)) as Hspec.
  pose proof (bulkRows_tuples (first :: rest)
                {| i := 1; keys := []; values := [] |} Hrows) as Htuples.
  cbv zeta in Hspec.
  destruct (bulkRows _ (first :: rest)) as [st realValues].
  cbn [fst snd i keys values app] in Hspec, Htuples.
  destruct Hspec as (Hvalues & _).
  rewrite Hvalues, Htuples. cbn [map reduce1]. rewrite fold_app_concat.
  eexists. eexists. eexists. split; [reflexivity | ].
  split; [apply bulkTuples_length | ].
  split; [intros r row Hrow; exact (bulkTuples_nth _ _ _ r row Hrow) | ].
  split.
  - rewrite <- (append_nil_r (join "," _)).
    rewrite bulkTuples_scan; [ | lia | reflexivity].
    cbn [scanPlaceholders]. rewrite app_nil_r. apply numbers_from_one.
  - apply (rowEntries_count (first :: rest) [] Hrows (NoDup_nil _)).
Qed.

Lemma placeholderCount_uniform (names : list string) (bulk : list Obj) :
  NoDup names ->
  Forall (fun row => ownKeys row = names) bulk ->
  forall known,
    known = [] \/ known = names ->
    placeholderCount known bulk = (List.length bulk * List.length names)%nat
    /\ (bulk <> [] -> columnsAfter known bulk = names).
Proof using.
  intros Hnd Hrows. unfold columnsAfter.
  assert (Hmerge : forall known, known = [] \/ known = names ->
                     mergeKeys known names = names).
  { intros known [-> | ->].
    - now apply mergeKeys_first.
    - apply mergeKeys_known. intros k Hk. exact Hk. }
  induction Hrows as [ | row rest Hrow _ IH]; intros known Hknown.
  - split; [reflexivity | congruence].
  - cbn [placeholderCount map fold_left List.length]. cbv zeta.
    rewrite Hrow, (Hmerge known Hknown).
    destruct (IH names (or_intror eq_refl)) as [-> Hkeys].
    split; [reflexivity | ]. intros _.
    destruct rest as [ | next rest]; [reflexivity | ].
    apply Hkeys. discriminate.
Qed.

(** X18.  A bulk insert of rows with the same keys is aligned.  When
    every row has the keys [names] in this order and [n] rows of [c]
    columns make fewer than 2^53 placeholders, where the columns are the
    names other than [__proto__] (all of [names] when [__proto__] is not
    among them), the column list is that of the columns, the
    placeholders are [$1] to [$(n * c)], and there are exactly [n * c]
    values: one placeholder per value. *)
Theorem createBulkInsert_uniform (names : list string) (first : Obj)
  (rest : list Obj) :
  NoDup names ->
  Forall (fun row => Js.keys row = names) (first :: rest) ->
  Z.of_nat (List.length (first :: rest) * List.length names) < 2 ^ 53 ->
  let columns :=
    List.filter (fun k => negb (String.eqb k "__proto__")) names in
  exists placeholders realValues,
    createBulkInsert (first :: rest)
    = Return (dq ^^ join (dq ^^ "," ^^ dq) (map snakeCase columns) ^^ dq,
              placeholders, realValues)
    /\ scanPlaceholders placeholders
       = map Z.of_nat
             (seq 1 (List.length (first :: rest) * List.length columns))
    /\ List.length realValues
       = (List.length (first :: rest) * List.length columns)%nat
    /\ (~ In "__proto__" names -> columns = names).
Proof.
  intros Hnd Huniform _ columns.
  change columns with (List.filter assignable names).
  clear columns. set (columns := List.filter assignable names).
  assert (Hrows : Forall (fun row => NoDup (Js.keys row)) (first :: rest)).
  { apply Forall_forall. intros row Hin.
    rewrite Forall_forall in Huniform. now rewrite (Huniform row Hin). }
  assert (Hown : Forall (fun row => ownKeys row = columns) (first :: rest)).
  { apply Forall_forall. intros row Hin.
    rewrite Forall_forall in Huniform. unfold ownKeys.
    now rewrite (Huniform row Hin). }
  assert (Hcolumns : NoDup columns) by now apply NoDup_filter.
  destruct (placeholderCount_uniform columns (first :: rest) Hcolumns Hown []
              (or_introl eq_refl)) as [Hcount Hkeys].
  specialize (Hkeys ltac:(discriminate)).
  unfold createBulkInsert.
  pose proof (bulkRows_spec (first :: rest)
                {| i := 1; keys := []; values := [] |} Hrows
                (NoDup_nil _)) as Hspec.
  pose proof (bulkRows_tuples (first :: rest)
                {| i := 1; keys := []; values := [] |} Hrows) as Htuples.
  cbv zeta in Hspec.
  destruct (bulkRows _ (first :: rest)) as [st realValues].
  cbn [fst snd i keys values app] in Hspec, Htuples.
  destruct Hspec as (Hreal & Hstate & _).
  rewrite Hkeys in Hstate.
  rewrite Hreal, Hstate, Htuples. cbn [map reduce1].
  rewrite fold_app_concat. unfold columnList.
  eexists. eexists. split; [reflexivity | ]. split; [ | split].
  - rewrite <- (append_nil_r (join "," _)).
    rewrite bulkTuples_scan; [ | lia | reflexivity].
    cbn [scanPlaceholders]. rewrite app_nil_r, Hcount.
    apply numbers_from_one.
  - change (map (fun entry => coerced (fst entry) (snd entry))
                (assignableEntries first)
              ++ List.concat
                   (map (fun row =>
                           map (fun entry =>
                                  coerced (fst entry) (snd entry))
                               (assignableEntries row))
                        rest))
      with (List.concat
              (map (fun row =>
                      map (fun entry => coerced (fst entry) (snd entry))
                          (assignableEntries row))
                   (first :: rest))).
    rewrite Forall_forall in Hown. clear -Hown.
    induction (first :: rest) as [ | row bulk IH]; [reflexivity | ].
    cbn [map List.concat List.length]. rewrite length_app, length_map.
    rewrite IH by (intros r Hr; apply Hown; now right).
    rewrite <- (Hown row (or_introl eq_refl)).
    rewrite <- (length_map fst (assignableEntries row)).
    change (map fst (assignableEntries row))
      with (Js.keys (assignableEntries row)).
    rewrite assignableEntries_keys. reflexivity.
  - intros Hproto. subst columns. clear -Hproto.
    induction names as [ | name names IH]; [reflexivity | ].
    cbn [List.filter].
    rewrite assignable_other by (intros ->; apply Hproto; now left).
    f_equal. apply IH. intros Hin. apply Hproto. now right.
Qed.

(** ** [typed-mysql-pool.ts]: field lists *)

Lemma fold_push_map {A : Type} (f : A -> list string) (fields : list A) :
  forall r, fold_left (fun r field => r ++ f field) fields r
            = r ++ flat_map f fields.
Proof.
  induction fields as [ | field rest IH]; intros r; simpl.
  - now rewrite app_nil_r.
  - now rewrite IH, app_assoc.
Qed.

Lemma fold_pointwise {A B : Type} (f g : A -> B -> A) (l : list B) :
  (forall a b, f a b = g a b) ->
  forall a, fold_left f l a = fold_left g l a.
Proof.
  intros Hfg. induction l as [ | b rest IH]; intros a; [reflexivity | ].
  simpl. now rewrite Hfg, IH.
Qed.

(** X19.  [selectFields] lists, for each field in order, the alias in
    double quotes, a dot and the snake-cased field; [createFields] lists,
    for each field, the field name as written in single quotes and then
    that same entry, so twice as many entries.  The entries are joined by
    commas, the table plays no part, and a missing alias is written as
    the text [undefined]. *)
Theorem field_lists (table : string) (fields : list string)
  (alias : option string) :
  let qualified := fun field =>
    quoted (match alias with Some text => text | None => "undefined" end)
      ^^ "." ^^ snakeCase field in
  selectFields table fields alias = join "," (map qualified fields)
  /\ createFields table fields alias
     = join "," (flat_map (fun field => ["'" ^^ field ^^ "'";
                                         qualified field]) fields)
  /\ List.length (flat_map (fun field => ["'" ^^ field ^^ "'";
                                          qualified field]) fields)
     = (2 * List.length fields)%nat.
Proof.
  cbv zeta. unfold selectFields, createFields, showOptional. split; [ | split].
  - rewrite (fold_push_map
               (fun field =>
                  [quoted (match alias with Some text => text
                                          | None => "undefined" end)
                     ^^ "." ^^ snakeCase field])).
    cbn [app]. f_equal.
  - f_equal.
    rewrite (fold_pointwise
               _ (fun r field =>
                    r ++ ["'" ^^ field ^^ "'";
                          quoted (match alias with Some text => text
                                                 | None => "undefined" end)
                            ^^ "." ^^ snakeCase field]))
      by (intros r field; now rewrite <- app_assoc).
    now rewrite fold_push_map.
  - induction fields as [ | field rest IH]; [reflexivity | ].
    cbn [flat_map app List.length]. rewrite IH. lia.
Qed.

(** ** [typed-mysql-pool.ts]: fetching *)

Lemma exactlyOneResult_cases {T E : Type} (result : list T) (error : E) :
  (forall row, result = [row] ->
               exactlyOneResult result error = Return (Some row))
  /\ (List.length result <> 1%nat ->
      exactlyOneResult result error = Throw error).
Proof.
  unfold exactlyOneResult. split.
  - now intros row ->.
  - intros Hlength.
    destruct (Nat.eqb_spec (List.length result) 1); [contradiction | ].
    reflexivity.
Qed.

Lemma query_outcome (statement : QueryInterface)
  (values : option (list Value)) :
  query statement values
  = match poolQuery (statementText statement) values with
    | Throw e => Throw e
    | Return (found, info) => Return {| rows := found; meta := info |}
    end.
Proof. reflexivity. Qed.

(** X20.  [one] and [many] on a statement.  The driver gets the
    statement's text and the values.  When it fails, both fail with its
    error.  When it answers with rows, [many] returns these rows as they
    are; [one] returns the row when there is exactly one, and fails with
    the caller's error when there is none or more than one. *)
Theorem one_and_many (statement : QueryInterface) (values : list Value)
  (error : JsError) :
  (forall driverError,
     poolQuery (statementText statement) (Some values) = Throw driverError ->
     many statement values = Throw driverError
     /\ one statement values error = Throw driverError)
  /\ (forall found info,
        poolQuery (statementText statement) (Some values)
        = Return (found, info) ->
        many statement values = Return found
        /\ (forall row, found = [row] ->
                        one statement values error = Return (Some row))
        /\ (List.length found <> 1%nat ->
            one statement values error = Throw error)).
Proof.
  unfold one, many. rewrite query_outcome. split.
  - intros driverError ->. now split.
  - intros found info ->. cbn [rows].
    destruct (exactlyOneResult_cases found error) as [Hone Hother].
    split; [reflexivity | ]. split; assumption.
Qed.

(** X21.  [crudGetAll] sends the driver the text [SELECT * FROM], the
    table in double quotes, a space and the filter text of [getFilters],
    with the filter's values.  A driver failure is passed on.  Without an
    error value all the rows are returned; with one, the row is returned
    when there is exactly one and the error value is thrown otherwise. *)
Theorem crudGetAll_fetches (table : string) (filters : FiltersArgument) :
  let text := "SELECT * FROM " ^^ quoted table ^^ " "
                ^^ Compiled.filter (getFilters filters) in
  let values := Some (Compiled.filterValues (getFilters filters)) in
  (forall driverError notSingleError,
     poolQuery text values = Throw driverError ->
     crudGetAll table filters notSingleError = Throw driverError)
  /\ (forall found info,
        poolQuery text values = Return (found, info) ->
        crudGetAll table filters None = Return (AllRows found)
        /\ (forall error row,
              found = [row] ->
              crudGetAll table filters (Some error)
              = Return (OneRow (Some row)))
        /\ (forall error,
              List.length found <> 1%nat ->
              crudGetAll table filters (Some error) = Throw error)).
Proof.
  cbv zeta. unfold crudGetAll. rewrite query_outcome.
  cbn [statementText]. split.
  - now intros driverError notSingleError ->.
  - intros found info ->. unfold fetched. cbn [rows].
    split; [reflexivity | ]. split.
    + intros error row Hrow.
      destruct (exactlyOneResult_cases found error) as [Hone _].
      now rewrite (Hone row Hrow).
    + intros error Hlength.
      destruct (exactlyOneResult_cases found error) as [_ Hother].
      now rewrite (Hother Hlength).
Qed.

Lemma selectFields_entries (table : string) (fields : list string)
  (alias : option string) :
  selectFields table fields alias
  = join "," (map (fun field => quoted (showOptional alias) ^^ "."
                                  ^^ snakeCase field) fields).
Proof.
  unfold selectFields.
  rewrite (fold_push_map
             (fun field =>
                [quoted (showOptional alias) ^^ "." ^^ snakeCase field])).
  cbn [app]. now f_equal.
Qed.

(** X22.  [crudGet] sends the driver a statement whose select list
    qualifies every field with the text [undefined] in double quotes (it
    calls the field-list helper without an alias): a line feed, six
    spaces, [SELECT] and the list; then, each after a line feed and six
    spaces, [FROM] with the quoted table, and the filter text; then a
    line feed and four spaces.  The values are the filter's, and the
    rows are handled as [crudGetAll] handles them. *)
Theorem crudGet_statement (table : string) (fields : list string)
  (filters : FiltersArgument) (notSingleError : option JsError) :
  let text :=
    nl ^^ "      SELECT "
       ^^ join "," (map (fun field => quoted "undefined" ^^ "."
                                        ^^ snakeCase field) fields)
       ^^ nl ^^ "      FROM " ^^ quoted table
       ^^ nl ^^ "      " ^^ Compiled.filter (getFilters filters)
       ^^ nl ^^ "    " in
  crudGet table fields filters notSingleError
  = match poolQuery text
            (Some (Compiled.filterValues (getFilters filters))) with
    | Throw driverError => Throw driverError
    | Return (found, info) =>
        match notSingleError with
        | Some error =>
            match exactlyOneResult found error with
            | Throw e => Throw e
            | Return row => Return (OneRow row)
            end
        | None => Return (AllRows found)
        end
    end.
Proof.
  cbv zeta. unfold crudGet. rewrite query_outcome.
  cbn [statementText sf]. rewrite selectFields_entries.
  cbn [showOptional].
  destruct (poolQuery _ _) as [driverError | [found info]]; reflexivity.
Qed.

(** ** The operators [createFilters] has a clause for *)

Lemma recognized_In (operator : string) :
  recognized operator = true
  <-> In operator ["gt"; "gte"; "lt"; "lte"; "eq"; "ne"; "on"; "after";
                   "before"; "includes"; "excludes"].
Proof using.
  split.
  - unfold recognized, map_has, operatorToMysql. cbn [map_get In].
    repeat match goal with
           | |- context [String.eqb ?a operator] =>
               destruct (String.eqb_spec a operator);
               [subst; intros _;
                repeat (first [left; reflexivity | right]) | ]
           | |- context [String.eqb operator ?a] =>
               destruct (String.eqb_spec operator a);
               [subst; intros _;
                repeat (first [left; reflexivity | right]) | ]
           end.
    discriminate.
  - cbn [In]. intros H.
    repeat (destruct H as [<- | H]; [reflexivity | ]).
    contradiction.
Qed.

(** X23.  The clause of a leaf, operator by operator.  For a leaf entry
    compiled when [filterValues] already holds some values, with a value
    offset for which the placeholder number stays at most 2^53 (the range
    in which the code's numbers are exact): under [gt], [gte], [lt],
    [lte], [eq], [ne], [on], [after] and [before] the value is pushed and
    the fragment compares the column with the next placeholder by [>],
    [>=], [<], [<=], [=], [!=], [=], [>] and [<]; under [includes] and
    [excludes] the value is pushed and the fragment compares the
    placeholder with [ANY] of the column by [=] and [!=]; under every
    other operator (among them [contains], which the free-text leaves
    use) nothing is pushed and there is no fragment. *)
Theorem recognized_operators (valueOffset : Z) (filterValues : list Value)
  (table : option string) (operator field : string) (value : Value) :
  0 <= valueOffset ->
  valueOffset + Z.of_nat (List.length filterValues) + 1 <= 2 ^ 53 ->
  let result :=
    compileToken valueOffset filterValues
      (TLeaf table operator field value) in
  let index := valueOffset + Z.of_nat (List.length filterValues) + 1 in
  let qualifier := match table with
                   | Some name => if truthy name then quoted name ^^ "."
                                  else EmptyString
                   | None => EmptyString
                   end in
  let column := qualifier ^^ quoted (snakeCase field) in
  (forall symbol,
     In (operator, symbol)
        [("gt", ">"); ("gte", ">="); ("lt", "<"); ("lte", "<=");
         ("eq", "="); ("ne", "!="); ("on", "="); ("after", ">");
         ("before", "<")] ->
     result = (filterValues ++ [value],
               Some (FCompare EmptyString column symbol index)))
  /\ (operator = "includes" ->
      result = (filterValues ++ [value],
                Some (FAny EmptyString index "=" column)))
  /\ (operator = "excludes" ->
      result = (filterValues ++ [value],
                Some (FAny EmptyString index "!=" column)))
  /\ (~ In operator ["gt"; "gte"; "lt"; "lte"; "eq"; "ne"; "on"; "after";
                     "before"; "includes"; "excludes"] ->
      result = (filterValues, None)).
Proof.
  intros _ _ result index qualifier column.
  assert (Hindex :
    valueOffset + Z.of_nat (List.length (filterValues ++ [value])) = index).
  { subst index. rewrite length_app. cbn [List.length]. lia. }
  subst result. split; [ | split; [ | split]].
  - intros symbol Hin. cbn [In] in Hin.
    repeat (destruct Hin as [[= <- <-] | Hin];
            [unfold compileToken; cbv zeta; rewrite Hindex; reflexivity | ]).
    contradiction.
  - intros ->. unfold compileToken. cbv zeta. now rewrite Hindex.
  - intros ->. unfold compileToken. cbv zeta. now rewrite Hindex.
  - intros Hother. apply compileToken_unrecognized.
    destruct (recognized operator) eqn:Hrec; [ | reflexivity].
    apply recognized_In in Hrec. contradiction.
Qed.

End DatabaseUtils.

(** * The statements at concrete inputs

    Here the host functions are the models of [Host]. *)

Lemma createFilters_placeholders_witness :
  0 <= 2
  /\ 2 + Z.of_nat
           (List.length
              (Compiled.filterValues
                 (createFilters Host.snakeCase (onlyFilters pets) [] true 2)))
     <= 2 ^ 53
  /\ cleanColumns Host.snakeCase
       (cleanFilters (onlyFilters pets) []) = true
  /\ placeholders (emittedFragments Host.snakeCase (onlyFilters pets) [] 2)
     = [3; 4; 5]
  /\ scanPlaceholders
       (Compiled.filter
          (createFilters Host.snakeCase (onlyFilters pets) [] true 2))
     = [3; 4; 5]
  /\ Compiled.filterValues
       (createFilters Host.snakeCase (onlyFilters pets) [] true 2)
     = [VString "u1"; VString "x"; VNumber 3].
Proof.
  assert (Hrange :
    2 + Z.of_nat
          (List.length
             (Compiled.filterValues
                (createFilters Host.snakeCase (onlyFilters pets) [] true 2)))
    <= 2 ^ 53) by (vm_compute; discriminate).
  split; [lia | ]. split; [exact Hrange | ]. split; [reflexivity | ].
  pose proof (createFilters_placeholders Host.snakeCase (onlyFilters pets)
                [] true 2 ltac:(lia) Hrange) as H.
  cbv zeta in H.
  destruct H as (_ & _ & Hnumbers & _ & Hvalues & _ & Htext).
  rewrite Hnumbers, (Htext eq_refl), Hvalues. repeat split.
Defined.

(** C1, against the claim: a leaf on the field [$5.name] pushes one
    value, and the filter text it gives holds two placeholder tokens,
    [$5] in the table qualifier and [$1], not one. *)
Lemma createFilters_placeholders_counterexample :
  Compiled.filterValues
    (createFilters Host.snakeCase (onlyFilters dollarLeaf) [] true 0)
  = [VString "x"]
  /\ Compiled.filter
       (createFilters Host.snakeCase (onlyFilters dollarLeaf) [] true 0)
     = "WHERE  " ^^ quoted "$5" ^^ "." ^^ quoted "name" ^^ " = $1"
  /\ scanPlaceholders
       (Compiled.filter
          (createFilters Host.snakeCase (onlyFilters dollarLeaf) [] true 0))
     = [5; 1]
  /\ List.length
       (scanPlaceholders
          (Compiled.filter
             (createFilters Host.snakeCase (onlyFilters dollarLeaf) [] true
                0)))
     <> List.length
          (Compiled.filterValues
             (createFilters Host.snakeCase (onlyFilters dollarLeaf) [] true
                0)).
Proof.
  split; [reflexivity | ]. split; [reflexivity | ].
  split; [reflexivity | ]. vm_compute. discriminate.
Qed.

Lemma getFilters_examples_witness :
  Host.snakeCase "id" = "id" /\ Host.snakeCase "owner" = "owner"
  /\ Host.snakeCase "type" = "type"
  /\ Compiled.filter
       (getFilters Host.snakeCase (FilterRecord [("id", VString "abc")]))
     = "WHERE  " ^^ quoted "id" ^^ " = $1".
Proof.
  do 3 (split; [reflexivity | ]).
  exact (proj1 (getFilters_examples Host.snakeCase
                  eq_refl eq_refl eq_refl)).
Defined.

(** C3, against the claim: the text compiled for [{id: 'abc'}] is not
    [WHERE "id" = $1] with single spaces. *)
Lemma getFilters_single_space_counterexample :
  Compiled.filter
    (getFilters Host.snakeCase (FilterRecord [("id", VString "abc")]))
  <> "WHERE " ^^ quoted "id" ^^ " = $1".
Proof. vm_compute. discriminate. Qed.



Lemma exactlyOneResult_witness :
  List.length [VString "row"] = 1%nat
  /\ exactlyOneResult [VString "row"] "Pet Not Found"
     = Return (Some (VString "row"))
  /\ List.length (@nil Value) <> 1%nat
  /\ exactlyOneResult (@nil Value) "Pet Not Found" = Throw "Pet Not Found".
Proof.
  pose proof (exactlyOneResult_cardinality Value string [VString "row"]
                "Pet Not Found") as [Hone _].
  pose proof (exactlyOneResult_cardinality Value string []
                "Pet Not Found") as [_ Hnone].
  split; [reflexivity | ].
  split.
  - destruct (Hone eq_refl) as (row & Hrow & Hreturn).
    injection Hrow as <-. exact Hreturn.
  - split; [discriminate | ]. apply Hnone. discriminate.
Defined.

Lemma createInsert_witness :
  NoDup (Js.keys [("name", VString "Bob"); ("type", VString "dog");
                  ("owner", VUndefined)])
  /\ createInsert Host.snakeCase
       [("name", VString "Bob"); ("type", VString "dog");
        ("owner", VUndefined)] 0
     = (quoted "name" ^^ "," ^^ quoted "type", "?,?",
        [VString "Bob"; VString "dog"]).
Proof.
  assert (Hnd : NoDup (Js.keys [("name", VString "Bob");
                                ("type", VString "dog");
                                ("owner", VUndefined)])).
  { repeat constructor; simpl; intuition discriminate. }
  split; [exact Hnd | ].
  exact (proj2 (createInsert_drops_unset Host.snakeCase _ 0 Hnd)
           eq_refl eq_refl).
Defined.

Lemma createFilters_limit_witness :
  BulkFilter.limit zeroLimit = Some 0%float
  /\ Compiled.limit (createFilters Host.snakeCase zeroLimit [] true 0)
     = 1000%float
  /\ Compiled.limit
       (createFilters Host.snakeCase
          {| BulkFilter.filters := None; BulkFilter.sort := None;
             BulkFilter.limit := Some PrimFloat.nan;
             BulkFilter.offset := Some 20%float;
             BulkFilter.freeText := None |} [] true 0)
     = 1000%float
  /\ Compiled.offset
       (createFilters Host.snakeCase
          {| BulkFilter.filters := None; BulkFilter.sort := None;
             BulkFilter.limit := Some PrimFloat.nan;
             BulkFilter.offset := Some 20%float;
             BulkFilter.freeText := None |} [] true 0)
     = 20%float.
Proof.
  pose proof (createFilters_limit_offset Host.snakeCase zeroLimit [] true 0)
    as Hzero.
  pose proof (createFilters_limit_offset Host.snakeCase
                {| BulkFilter.filters := None; BulkFilter.sort := None;
                   BulkFilter.limit := Some PrimFloat.nan;
                   BulkFilter.offset := Some 20%float;
                   BulkFilter.freeText := None |} [] true 0) as Hnan.
  cbv zeta in Hzero, Hnan.
  destruct Hzero as (_ & Hzero & _).
  destruct Hnan as (_ & Hnan & _ & _ & _ & Hoffset).
  split; [reflexivity | ].
  split; [exact (Hzero _ eq_refl eq_refl) | ].
  split; [exact (Hnan _ eq_refl eq_refl) | ].
  exact (Hoffset _ eq_refl eq_refl eq_refl).
Defined.

(** C7, against the claim: a supplied limit of 0 is not returned as 0
    but as 1000. *)
Lemma createFilters_limit_zero_counterexample :
  BulkFilter.limit zeroLimit = Some 0%float
  /\ Compiled.limit (createFilters Host.snakeCase zeroLimit [] true 0)
     = 1000%float
  /\ Compiled.limit (createFilters Host.snakeCase zeroLimit [] true 0)
     <> 0%float.
Proof.
  split; [reflexivity | ]. split; [reflexivity | ].
  intros Hzero.
  assert (Hsame :
    PrimFloat.eqb
      (Compiled.limit (createFilters Host.snakeCase zeroLimit [] true 0))
      1000%float
    = PrimFloat.eqb 0%float 1000%float) by now rewrite Hzero.
  vm_compute in Hsame. discriminate Hsame.
Qed.

Lemma createBulkInsert_witness :
  [[("name", VString "Bob")]] <> []
  /\ exists plan,
       createBulkInsert Host.snakeCase Host.JSON_stringify Host.ToString
         [[("name", VString "Bob")]] = Return plan.
Proof.
  assert (Hne : [[("name", VString "Bob")]] <> []) by discriminate.
  split; [exact Hne | ].
  exact (proj2 (proj2 (createBulkInsert_empty_throws Host.snakeCase
                         Host.JSON_stringify Host.ToString) _) Hne).
Defined.



Lemma manageFilters_field_path_witness :
  dotFree "pets" = true /\ dotFree "firstName" = true
  /\ manageFilters [Leaf (Some AND) "pets.firstName" "eq" (VString "Rex")]
     = [TCondition AND; TLeaf (Some "pet") "eq" "firstName" (VString "Rex")]
  /\ manageFilters [Leaf None "shop.pets.firstName" "eq" (VString "Rex")]
     = [TLeaf (Some "shop") "eq" "firstName" (VString "Rex")].
Proof.
  split; [reflexivity | ]. split; [reflexivity | ].
  split.
  - exact (proj1 (proj2 (manageFilters_field_path (Some AND) "eq"
                           (VString "Rex") "pets" "" "firstName"
                           eq_refl eq_refl))).
  - exact (proj1 (proj2 (proj2 (manageFilters_field_path None "eq"
                                  (VString "Rex") "shop" "pets" "firstName"
                                  eq_refl eq_refl)))).
Defined.

Lemma createFilters_blank_freeText_witness :
  allWhitespace "   " = true
  /\ createFilters Host.snakeCase
       (withFreeText (onlyFilters ownerOnly) (Some "   ")) ["name"] true 0
     = createFilters Host.snakeCase
         (withFreeText (onlyFilters ownerOnly) None) ["name"] true 0.
Proof.
  split; [reflexivity | ].
  exact (createFilters_blank_freeText Host.snakeCase (onlyFilters ownerOnly)
           "   " ["name"] true 0 eq_refl).
Defined.

Lemma createFilters_freeText_group_witness :
  hasVisible "bob" = true
  /\ emittedFragments Host.snakeCase
       (withFreeText (onlyFilters ownerOnly) (Some "bob"))
       ["name"; "notes"; "tags"] 0
     = [FCompare "" (quoted "owner") "=" 1; FCondition AND;
        FGrouping LParen; FCondition OR; FCondition OR; FGrouping RParen].
Proof.
  split; [reflexivity | ].
  rewrite (createFilters_freeText_group Host.snakeCase
             (onlyFilters ownerOnly) "bob" ["name"; "notes"; "tags"] 0
             eq_refl).
  reflexivity.
Defined.

Lemma createFilters_offsets_chain_witness :
  0 <= 2
  /\ 2 + Z.of_nat
           (List.length
              (Compiled.filterValues
                 (createFilters Host.snakeCase (onlyFilters pets) [] true 2)))
       + Z.of_nat
           (List.length
              (Compiled.filterValues
                 (createFilters Host.snakeCase (onlyFilters ownerOnly) []
                    true 2)))
     <= 2 ^ 53
  /\ placeholders (emittedFragments Host.snakeCase (onlyFilters pets) [] 2)
       ++ placeholders
            (emittedFragments Host.snakeCase (onlyFilters ownerOnly) [] 5)
     = [3; 4; 5; 6].
Proof.
  assert (Hrange :
    2 + Z.of_nat
          (List.length
             (Compiled.filterValues
                (createFilters Host.snakeCase (onlyFilters pets) [] true 2)))
      + Z.of_nat
          (List.length
             (Compiled.filterValues
                (createFilters Host.snakeCase (onlyFilters ownerOnly) []
                   true 2)))
    <= 2 ^ 53) by (vm_compute; discriminate).
  split; [lia | ]. split; [exact Hrange | ].
  exact (createFilters_offsets_chain Host.snakeCase (onlyFilters pets)
           (onlyFilters ownerOnly) [] [] true 2 ltac:(lia) Hrange).
Defined.

Lemma createFilters_sort_forms_witness :
  dotFree "pets" = true /\ dotFree "firstName" = true
  /\ Compiled.sort
       (createFilters Host.snakeCase
          (withSort noFilter
             (Some {| key := "pets.firstName"; order := "DESC" |}))
          [] true 0)
     = "ORDER BY " ^^ quoted "pets" ^^ ".first_name DESC".
Proof.
  split; [reflexivity | ]. split; [reflexivity | ].
  exact (proj1 (proj2 (createFilters_sort_forms Host.snakeCase noFilter []
                         true 0 "pets" "" "firstName" "DESC"
                         eq_refl eq_refl))).
Defined.

Lemma createInsert_nothing_set_witness :
  (forall key value, In (key, value) unset -> value = VUndefined)
  /\ createInsert Host.snakeCase unset 0 = (dq ^^ dq, EmptyString, []).
Proof.
  assert (Hunset : forall key value,
            In (key, value) unset -> value = VUndefined).
  { intros key value [[= _ <-] | [[= _ <-] | []]]; reflexivity. }
  split; [exact Hunset | ].
  exact (createInsert_nothing_set Host.snakeCase unset 0 Hunset).
Defined.

Lemma rex_is_a_record : NoDup (Js.keys rex).
Proof. repeat constructor; simpl; intuition discriminate. Defined.


Lemma parsed_is_a_record : NoDup (Js.keys parsed).
Proof. repeat constructor; simpl; intuition discriminate. Defined.


Lemma host_stringify_text_or_undefined (value : Value) :
  (exists text, Host.JSON_stringify value = VString text)
  \/ Host.JSON_stringify value = VUndefined.
Proof.
  unfold Host.JSON_stringify. destruct (Host.jsonText value) as [text | ].
  - left. now exists text.
  - now right.
Defined.

Lemma bob_is_a_record : NoDup (Js.keys bob).
Proof. repeat constructor; simpl; intuition discriminate. Defined.

Lemma transformValues_idempotent_witness :
  Host.JSON_stringify VUndefined = VUndefined
  /\ NoDup (Js.keys bob)
  /\ transformValues Host.JSON_stringify Host.ToString
       (transformValues Host.JSON_stringify Host.ToString bob)
     = transformValues Host.JSON_stringify Host.ToString bob.
Proof.
  split; [reflexivity | ]. split; [exact bob_is_a_record | ].
  exact (transformValues_idempotent Host.JSON_stringify Host.ToString bob
           host_stringify_text_or_undefined eq_refl bob_is_a_record).
Defined.

Lemma rex_and_bob_are_records :
  Forall (fun row => NoDup (Js.keys row)) [rex; bob].
Proof.
  constructor; [exact rex_is_a_record | ].
  constructor; [exact bob_is_a_record | constructor].
Defined.

Lemma parsed_and_bob_are_records :
  Forall (fun row => NoDup (Js.keys row)) [parsed; bob].
Proof.
  constructor; [exact parsed_is_a_record | ].
  constructor; [exact bob_is_a_record | constructor].
Defined.

Lemma createBulkInsert_columns_witness :
  Forall (fun row => NoDup (Js.keys row)) [parsed; bob]
  /\ exists columns placeholders realValues later,
       createBulkInsert Host.snakeCase Host.JSON_stringify Host.ToString
         [parsed; bob]
       = Return (dq ^^ join (dq ^^ "," ^^ dq)
                          (map Host.snakeCase columns) ^^ dq,
                 placeholders, realValues)
       /\ NoDup columns
       /\ (forall k, In k columns
                     <-> k <> "__proto__"
                         /\ exists row, In row [parsed; bob]
                                        /\ In k (Js.keys row))
       /\ columns = ["name"] ++ later.
Proof.
  split; [exact parsed_and_bob_are_records | ].
  exact (createBulkInsert_columns Host.snakeCase Host.JSON_stringify
           Host.ToString parsed [bob] parsed_and_bob_are_records).
Defined.

Lemma createBulkInsert_values_witness :
  Forall (fun row => NoDup (Js.keys row)) [parsed; rex; bob]
  /\ exists columns placeholders,
       createBulkInsert Host.snakeCase Host.JSON_stringify Host.ToString
         [parsed; rex; bob]
       = Return (columns, placeholders,
                 [VString "Bob"; VString "Rex"; VNumber 3; VString "Bob";
                  VString (quoted "2020-01-01T00:00:00.000Z");
                  VString "{ a,b}"]).
Proof.
  assert (Hrows : Forall (fun row => NoDup (Js.keys row))
                         [parsed; rex; bob]).
  { constructor; [exact parsed_is_a_record | ].
    exact rex_and_bob_are_records. }
  split; [exact Hrows | ].
  destruct (createBulkInsert_values Host.snakeCase Host.JSON_stringify
              Host.ToString parsed [rex; bob] Hrows)
    as (columns & placeholders & Hreturn & _).
  exists columns, placeholders. exact Hreturn.
Defined.

Lemma createBulkInsert_placeholders_witness :
  Forall (fun row => NoDup (Js.keys row)) [rex; bob]
  /\ Z.of_nat (placeholderCount [] [rex; bob]) < 2 ^ 53
  /\ placeholderCount [] [rex; bob] = 6%nat
  /\ exists columns tuples realValues,
       createBulkInsert Host.snakeCase Host.JSON_stringify Host.ToString
         [rex; bob]
       = Return (columns, join "," tuples, realValues)
       /\ List.length tuples = 2%nat
       /\ (forall r row,
             nth_error [rex; bob] r = Some row ->
             nth_error tuples r
             = Some (tupleText
                       (1 + Z.of_nat
                              (placeholderCount [] (firstn r [rex; bob])))
                       (List.length
                          (columnsAfter [] (firstn (S r) [rex; bob])))))
       /\ scanPlaceholders (join "," tuples) = [1; 2; 3; 4; 5; 6]
       /\ (List.length realValues <= 6)%nat.
Proof.
  assert (Hrange : Z.of_nat (placeholderCount [] [rex; bob]) < 2 ^ 53)
    by reflexivity.
  split; [exact rex_and_bob_are_records | ]. split; [exact Hrange | ].
  split; [reflexivity | ].
  exact (createBulkInsert_placeholders Host.snakeCase Host.JSON_stringify
           Host.ToString rex [bob] rex_and_bob_are_records Hrange).
Defined.

Lemma createBulkInsert_uniform_witness :
  NoDup ["name"; "age"]
  /\ Forall (fun row => Js.keys row = ["name"; "age"]) [rex; tom]
  /\ Z.of_nat (List.length [rex; tom] * List.length ["name"; "age"])
     < 2 ^ 53
  /\ exists placeholders realValues,
       createBulkInsert Host.snakeCase Host.JSON_stringify Host.ToString
         [rex; tom]
       = Return (quoted "name" ^^ "," ^^ quoted "age",
                 placeholders, realValues)
       /\ scanPlaceholders placeholders = [1; 2; 3; 4]
       /\ List.length realValues = 4%nat.
Proof.
  assert (Huniform : Forall (fun row => Js.keys row = ["name"; "age"])
                            [rex; tom]) by (repeat constructor).
  assert (Hrange :
    Z.of_nat (List.length [rex; tom] * List.length ["name"; "age"])
    < 2 ^ 53) by reflexivity.
  split; [exact rex_is_a_record | ]. split; [exact Huniform | ].
  split; [exact Hrange | ].
  destruct (createBulkInsert_uniform Host.snakeCase Host.JSON_stringify
              Host.ToString ["name"; "age"] rex [tom] rex_is_a_record
              Huniform Hrange)
    as (placeholders & realValues & Hreturn & Hscan & Hlength & _).
  exists placeholders, realValues.
  split; [exact Hreturn | ]. split; [exact Hscan | exact Hlength].
Defined.

Lemma recognized_operators_witness :
  0 <= 2
  /\ 2 + Z.of_nat (List.length [VString "u1"]) + 1 <= 2 ^ 53
  /\ compileToken Host.snakeCase 2 [VString "u1"]
       (TLeaf (Some "pet") "gte" "birthYear" (VNumber 2020))
     = ([VString "u1"; VNumber 2020],
        Some (FCompare "" (quoted "pet" ^^ "." ^^ quoted "birth_year")
                       ">=" 4))
  /\ compileToken Host.snakeCase 2 [VString "u1"]
       (TLeaf None "contains" "name" (VString "bob"))
     = ([VString "u1"], None).
Proof.
  assert (Hrange : 2 + Z.of_nat (List.length [VString "u1"]) + 1 <= 2 ^ 53)
    by (vm_compute; discriminate).
  split; [lia | ]. split; [exact Hrange | ].
  split.
  - exact (proj1 (recognized_operators Host.snakeCase 2 [VString "u1"]
                    (Some "pet") "gte" "birthYear" (VNumber 2020)
                    ltac:(lia) Hrange)
             ">=" ltac:(right; left; reflexivity)).
  - apply (proj2 (proj2 (proj2
             (recognized_operators Host.snakeCase 2 [VString "u1"]
                None "contains" "name" (VString "bob")
                ltac:(lia) Hrange)))).
    simpl. intuition discriminate.
Defined.

Lemma one_and_many_witness :
  sampleDriver "SELECT 1" (Some []) = Return ([rex], 1%nat)
  /\ one Host.snakeCase Obj nat string sampleDriver (StatementText "SELECT 1") [] "Pet Not Found"
     = Return (Some rex)
  /\ sampleDriver "SELECT" (Some []) = Throw "ER_PARSE_ERROR"
  /\ one Host.snakeCase Obj nat string sampleDriver (StatementText "SELECT") [] "Pet Not Found"
     = Throw "ER_PARSE_ERROR".
Proof.
  split; [reflexivity | ].
  pose proof (one_and_many Host.snakeCase Obj nat string sampleDriver
                (StatementText "SELECT 1") [] "Pet Not Found")
    as [_ Hrows].
  pose proof (one_and_many Host.snakeCase Obj nat string sampleDriver
                (StatementText "SELECT") [] "Pet Not Found")
    as [Hfails _].
  split; [exact (proj1 (proj2 (Hrows [rex] 1%nat eq_refl)) rex eq_refl) | ].
  split; [reflexivity | ].
  exact (proj2 (Hfails "ER_PARSE_ERROR" eq_refl)).
Defined.

Lemma crudGetAll_fetches_witness :
  sampleDriver ("SELECT * FROM " ^^ quoted "pet" ^^ " ") (Some [])
  = Throw "ER_PARSE_ERROR"
  /\ crudGetAll Host.snakeCase Obj nat string sampleDriver "pet" (FilterArray [])
       (Some "Pet Not Found")
     = Throw "ER_PARSE_ERROR".
Proof.
  split; [reflexivity | ].
  exact (proj1 (crudGetAll_fetches Host.snakeCase Obj nat string sampleDriver "pet"
                  (FilterArray []))
           "ER_PARSE_ERROR" (Some "Pet Not Found") eq_refl).
Defined.
